(** * ag: a command-line assistant over an OpenAI-style chat API

    A shallow embedding of [src/models/client.py] (class [AIClient] and
    [create_client]), of [src/utils/screenshot.py] ([get_screenshot]) and of
    [src/cli/commands.py] ([cli]), together with the properties of the
    stream aggregator, of client construction, of the image reference and
    of the command-line boundary.

    Python objects are duck typed; the embedding keeps the three states an
    attribute can be in (missing, [None], a value), since [process_stream]
    tests all of them.  Printing, the requests sent to the remote service
    and the file system are threaded through an explicit state; Python
    exceptions are the [Raise] outcome of a computation. *)

From Stdlib Require Import ZArith NArith Lia List.
From Stdlib Require Import Strings.String Strings.Ascii Strings.Byte.
From stdpp Require Import base option list strings gmap pretty.

Local Open Scope string_scope.
Local Open Scope list_scope.

(** ** Python values *)

(** An attribute of a duck-typed object: [hasattr] fails on [NoAttr],
    holds on the other two; [AttrNone] is an attribute whose value is
    [None]. *)
Inductive pyattr (A : Type) : Type :=
| NoAttr
| AttrNone
| AttrVal (a : A).
Arguments NoAttr {A}.
Arguments AttrNone {A}.
Arguments AttrVal {A} a.

Definition hasattr {A} (x : pyattr A) : bool :=
  match x with NoAttr => false | _ => true end.

(** Truth value of a [str]: the empty string is false. *)
Definition str_truthy (s : string) : bool :=
  match s with EmptyString => false | String _ _ => true end.

(** Truth value of an [Optional[str]]. *)
Definition truthy (o : option string) : bool :=
  match o with Some s => str_truthy s | None => false end.

(** [a or b] on [Optional[str]] operands. *)
Definition py_or (a b : option string) : option string :=
  if truthy a then a else b.

(** [a if a else d], with a [str] default. *)
Definition or_default (a : option string) (d : string) : string :=
  match a with
  | Some s => if str_truthy s then s else d
  | None => d
  end.

(** [s.startswith(p)] *)
Definition startswith (s p : string) : bool := String.prefix p s.

(** [s.lower()], byte-wise on the UTF-8 encoding: the letters A-Z are
    mapped to a-z.  No other code point lowercases to a string of ASCII
    letters only, so the membership test of [cli] against the ASCII
    keywords agrees with Python's. *)
Definition lower_ascii (c : ascii) : ascii :=
  let n := nat_of_ascii c in
  if ((65 <=? n) && (n <=? 90))%nat then ascii_of_nat (n + 32) else c.

Fixpoint lower (s : string) : string :=
  match s with
  | EmptyString => EmptyString
  | String c r => String (lower_ascii c) (lower r)
  end.

Fixpoint str_in (s : string) (l : list string) : bool :=
  match l with
  | [] => false
  | k :: r => if String.eqb s k then true else str_in s r
  end.

(** ** Exceptions *)

(** The classes that the code raises or names in an [except] clause, and
    representatives of the other branches of Python's hierarchy. *)
Inductive exn_class : Type :=
| FileNotFoundError      (* OSError > FileNotFoundError *)
| IsADirectoryError      (* OSError > IsADirectoryError *)
| NotADirectoryError     (* OSError > NotADirectoryError *)
| ConnectionError        (* OSError > ConnectionError *)
| OSError
| ValueError
| TypeError              (* Exception > TypeError *)
| APIError               (* Exception > openai.APIError *)
| Abort                  (* Exception > RuntimeError > click.Abort *)
| KeyboardInterrupt.     (* BaseException > KeyboardInterrupt *)

Record exn : Type := Exn { exn_cls : exn_class; exn_str : string }.

(** [isinstance(e, FileNotFoundError)] *)
Definition is_FileNotFoundError (e : exn) : bool :=
  match exn_cls e with FileNotFoundError => true | _ => false end.

(** [isinstance(e, ValueError)] *)
Definition is_ValueError (e : exn) : bool :=
  match exn_cls e with ValueError => true | _ => false end.

(** [isinstance(e, OSError)] *)
Definition is_OSError (e : exn) : bool :=
  match exn_cls e with
  | FileNotFoundError | IsADirectoryError | NotADirectoryError
  | ConnectionError | OSError => true
  | _ => false
  end.

(** [isinstance(e, Exception)] *)
Definition is_Exception (e : exn) : bool :=
  match exn_cls e with KeyboardInterrupt => false | _ => true end.

(** ** Chunks of a streamed completion *)

Record ChoiceDelta : Type := { content : pyattr string }.
Record Choice : Type := { delta : pyattr ChoiceDelta }.
Record CompletionUsage : Type :=
  { prompt_tokens : N; completion_tokens : N; total_tokens : N }.
Record ChatCompletionChunk : Type :=
  { choices : pyattr (list Choice); usage : pyattr CompletionUsage }.

(** The iterator handed to [process_stream]: the chunks it yields, then
    either exhaustion ([None]) or an exception raised by [next]. *)
Record stream : Type :=
  { yielded : list ChatCompletionChunk; failure : option exn }.

(** ** Requests *)

Inductive part : Type :=
| TextPart (text : string)
| ImageUrlPart (url : string).

Inductive message_content : Type :=
| PlainText (text : string)
| Parts (ps : list part).

Inductive role : Type := system | user | assistant.

Record message : Type := { msg_role : role; msg_content : message_content }.

(** The keyword arguments of [completions.create]. *)
Record request : Type :=
  { req_model : string;
    req_messages : list message;
    req_stream : bool;
    req_stream_options : option bool;      (* {"include_usage": b} *)
    req_modalities : option (list string) }.

(** ** Observable effects *)

(** One entry per call that writes to standard output, named after the
    call site. *)
Inductive event : Type :=
| PrintContent (c : string)          (* client.py:118 print(content, end=..., flush=True) *)
| PrintUsage (u : CompletionUsage)   (* client.py:126 *)
| PrintStreamError (e : exn)         (* client.py:135 *)
| PrintResponse (r : string)         (* client.py:171, 237 *)
| PrintCreateError (e : exn)         (* client.py:261 *)
| Echo (s : string)                  (* click.echo *)
| Prompt (text : string).            (* click.prompt *)

Inductive node : Type :=
| File (data : list byte)
| Directory.

Record state : Type :=
  { stdout : list event;
    requests : list request;
    fs : gmap string node }.

Definition initial (files : gmap string node) : state :=
  {| stdout := []; requests := []; fs := files |}.

(** What the program does not control. *)
Record world : Type :=
  { environ : gmap string string;       (* os.environ at start *)
    dotenv : gmap string string;        (* the variables of the .env file *)
    create_stream : nat -> request -> exn + stream;
    create_full : nat -> request -> exn + string;
    screenshot : exn + list byte;
    (* what [open] raises for a path at which nothing exists, given the
       files: FileNotFoundError as a rule, NotADirectoryError below a
       regular file, ValueError for a NUL character, ... *)
    open_missing : gmap string node -> string -> exn;
    (* the text of the IsADirectoryError that [open] raises for a
       directory *)
    is_a_directory : string -> string }.

(** ** Computations with effects and exceptions *)

Inductive result (A : Type) : Type :=
| Return (a : A)
| Raise (e : exn).
Arguments Return {A} a.
Arguments Raise {A} e.

Definition M (A : Type) : Type := state -> state * result A.

Definition ret {A} (a : A) : M A := fun st => (st, Return a).
Definition raise {A} (e : exn) : M A := fun st => (st, Raise e).

Definition bind {A B} (m : M A) (k : A -> M B) : M B :=
  fun st =>
    match m st with
    | (st', Return a) => k a st'
    | (st', Raise e) => (st', Raise e)
    end.

(** [try: m except <handles> as e: h e]; side effects of [m] stay. *)
Definition try_except {A} (m : M A) (handles : exn -> bool) (h : exn -> M A)
  : M A :=
  fun st =>
    match m st with
    | (st', Return a) => (st', Return a)
    | (st', Raise e) => if handles e then h e st' else (st', Raise e)
    end.

Declare Scope py_scope.
Delimit Scope py_scope with py.
Notation "'let*' x ':=' m 'in' k" := (bind m (fun x => k))
  (at level 10, x name, m at level 100, k at level 200) : py_scope.
Notation "'do' m 'then' k" := (bind m (fun _ => k))
  (at level 10, m at level 100, k at level 200) : py_scope.
Local Open Scope py_scope.

Definition out (ev : event) : M unit :=
  fun st =>
    ({| stdout := stdout st ++ [ev]; requests := requests st; fs := fs st |},
     Return tt).

Definition when (b : bool) (m : M unit) : M unit := if b then m else ret tt.

(** ** [class AIClient] (src/models/client.py) *)

Record AIClient : Type :=
  { api_key : string; base_url : string; model : string }.

(** [load_dotenv()]: the variables of the .env file are added to the
    environment, the ones already set are kept. *)
Definition load_dotenv (w : world) : gmap string string :=
  environ w ∪ dotenv w.

Definition msg_api_key : string :=
  "缺少 API 密钥,请设置环境变量 API_KEY 或在初始化时提供".
Definition msg_base_url : string :=
  "缺少 API 基础 URL,请设置环境变量 BASE_URL 或在初始化时提供".
Definition msg_model : string :=
  "缺少模型名称,请设置环境变量 MODEL 或在初始化时提供".

(** Lines 33-37 of [__init__]: the three values after the fallback. *)
Definition resolve_config (w : world) (api_key base_url model : option string)
  : option string * option string * option string :=
  if bool_decide (api_key = None) || bool_decide (base_url = None)
     || bool_decide (model = None)
  then
    let env := load_dotenv w in
    (py_or api_key (env !! "API_KEY"),
     py_or base_url (env !! "BASE_URL"),
     py_or model (env !! "MODEL"))
  else (api_key, base_url, model).

(** [AIClient.__init__] *)
Definition AIClient_init (w : world) (api_key base_url model : option string)
  : M AIClient :=
  let '(api_key, base_url, model) := resolve_config w api_key base_url model in
  if negb (truthy api_key) then raise (Exn ValueError msg_api_key)
  else if negb (truthy base_url) then raise (Exn ValueError msg_base_url)
  else if negb (truthy model) then raise (Exn ValueError msg_model)
  else ret (Build_AIClient (default EmptyString api_key)
                           (default EmptyString base_url)
                           (default EmptyString model)).

(** What [chat_completion] hands back: the chunk iterator of a streamed
    call, or the text of [choices[0].message.content] of a complete one. *)
Inductive completion : Type :=
| Streamed (s : stream)
| Complete (response : string).

Definition send (w : world) (params : request) : M completion :=
  fun st =>
    let n := length (requests st) in
    let st' := {| stdout := stdout st;
                  requests := requests st ++ [params];
                  fs := fs st |} in
    if req_stream params then
      match create_stream w n params with
      | inl e => (st', Raise e)
      | inr s => (st', Return (Streamed s))
      end
    else
      match create_full w n params with
      | inl e => (st', Raise e)
      | inr r => (st', Return (Complete r))
      end.

(** [AIClient.chat_completion]; of the extra keyword arguments only
    [modalities] is ever passed in this repository. *)
Definition chat_completion (w : world) (self : AIClient)
    (messages : list message) (stream include_usage : bool)
    (modalities : option (list string)) : M completion :=
  let params :=
    {| req_model := model self;
       req_messages := messages;
       req_stream := stream;
       req_stream_options :=
         if stream && include_usage then Some true else None;
       req_modalities := modalities |} in
  send w params.

(** The condition of lines 108-113. *)
Definition has_content (chunk : ChatCompletionChunk) : bool :=
  match choices chunk with
  | AttrVal (c0 :: _) =>
      match delta c0 with
      | AttrVal d => hasattr (content d)
      | AttrNone => false
      | NoAttr => false
      end
  | _ => false
  end.

(** [chunk.choices[0].delta.content], read under [has_content]. *)
Definition get_content (chunk : ChatCompletionChunk) : pyattr string :=
  match choices chunk with
  | AttrVal (c0 :: _) =>
      match delta c0 with
      | AttrVal d => content d
      | _ => NoAttr
      end
  | _ => NoAttr
  end.

(** Lines 108-118: the text of one chunk is appended to
    [full_response], and printed at once when [print_output] is set. *)
Definition take_content (print_output : bool) (chunk : ChatCompletionChunk)
    (full_response : string) : M string :=
  if has_content chunk then
    match get_content chunk with
    | AttrVal c =>
        if str_truthy c then
          do when print_output (out (PrintContent c))
          then ret (full_response ++ c)%string
        else ret full_response
    | _ => ret full_response
    end
  else ret full_response.

(** Lines 121-122: the usage payload of one chunk replaces the one seen
    before. *)
Definition take_usage (chunk : ChatCompletionChunk)
    (usage_info : option CompletionUsage) : option CompletionUsage :=
  match usage chunk with
  | AttrVal u => Some u
  | _ => usage_info
  end.

(** The [for] loop of lines 107-122 over the chunks that the iterator
    yields. *)
Fixpoint for_chunks (print_output : bool) (chunks : list ChatCompletionChunk)
    (full_response : string) (usage_info : option CompletionUsage)
  : M (string * option CompletionUsage) :=
  match chunks with
  | [] => ret (full_response, usage_info)
  | chunk :: rest =>
      let* full_response := take_content print_output chunk full_response in
      let usage_info := take_usage chunk usage_info in
      for_chunks print_output rest full_response usage_info
  end.

(** The whole [for] statement: the loop ends when the iterator is
    exhausted, or with the exception that the iterator raises. *)
Definition for_completion (print_output : bool) (completion : stream)
  : M (string * option CompletionUsage) :=
  let* r := for_chunks print_output (yielded completion) EmptyString None in
  match failure completion with
  | Some e => raise e
  | None => ret r
  end.

(** [AIClient.process_stream] *)
Definition process_stream (print_output : bool) (completion : stream)
  : M string :=
  try_except
    (let* r := for_completion print_output completion in
     do match r.2 with
        | Some u => when print_output (out (PrintUsage u))
        | None => ret tt
        end
     then ret r.1)
    is_Exception
    (fun e => do when print_output (out (PrintStreamError e)) then raise e).

(** [AIClient.text_completion] *)
Definition text_completion (w : world) (self : AIClient)
    (prompt system_prompt : string) (stream print_output : bool) : M string :=
  let messages :=
    [ {| msg_role := system; msg_content := PlainText system_prompt |};
      {| msg_role := user; msg_content := PlainText prompt |} ] in
  let* completion := chat_completion w self messages stream true None in
  match completion with
  | Streamed s => process_stream print_output s
  | Complete response =>
      do when print_output (out (PrintResponse response))
      then ret response
  end.

(** [base64.b64encode(data).decode("utf-8")]: the standard alphabet, three
    bytes to four characters, [=] padding. *)
Definition b64_alphabet : string :=
  "ABCDEFGHIJKLMNOPQRSTUVWXYZabcdefghijklmnopqrstuvwxyz0123456789+/".

Definition b64_char (n : N) : ascii :=
  match String.get (N.to_nat n) b64_alphabet with
  | Some c => c
  | None => "="%char
  end.

Fixpoint b64encode (data : list byte) : string :=
  match data with
  | [] => EmptyString
  | [a] =>
      let n := (Byte.to_N a * 65536)%N in
      String (b64_char (n / 262144))
        (String (b64_char ((n / 4096) mod 64)) "==")
  | [a; b] =>
      let n := (Byte.to_N a * 65536 + Byte.to_N b * 256)%N in
      String (b64_char (n / 262144))
        (String (b64_char ((n / 4096) mod 64))
           (String (b64_char ((n / 64) mod 64)) "="))
  | a :: b :: c :: rest =>
      let n := (Byte.to_N a * 65536 + Byte.to_N b * 256 + Byte.to_N c)%N in
      String (b64_char (n / 262144))
        (String (b64_char ((n / 4096) mod 64))
           (String (b64_char ((n / 64) mod 64))
              (String (b64_char (n mod 64)) (b64encode rest))))
  end.

(** [open(path, "rb")] followed by [read()]; the [with] block closes the
    file on every exit.  Which exception a path gets at which nothing
    exists is for the operating system to say. *)
Definition open_read (w : world) (path : string) : M (list byte) :=
  fun st =>
    match fs st !! path with
    | Some (File data) => (st, Return data)
    | Some Directory =>
        (st, Raise (Exn IsADirectoryError (is_a_directory w path)))
    | None => (st, Raise (open_missing w (fs st) path))
    end.

(** Lines 197-204 of [image_text_completion]: the value of [image_url]. *)
Definition image_url (w : world) (image_path : string) : M string :=
  if startswith image_path "data:image" then ret image_path
  else
    let* data := open_read w image_path in
    ret ("data:image/png;base64," ++ b64encode data)%string.

(** Lines 207-222: the two messages of an image request. *)
Definition image_messages (prompt url system_prompt : string) : list message :=
  [ {| msg_role := system;
       msg_content := Parts [TextPart system_prompt] |};
    {| msg_role := user;
       msg_content := Parts [ImageUrlPart url; TextPart prompt] |} ].

(** [AIClient.image_text_completion] *)
Definition image_text_completion (w : world) (self : AIClient)
    (prompt image_path system_prompt : string) (stream print_output : bool)
    (modalities : option (list string)) : M string :=
  let* url := image_url w image_path in
  let messages := image_messages prompt url system_prompt in
  let modalities :=
    match modalities with
    | None => Some ["text"]
    | Some m => Some m
    end in
  let* completion := chat_completion w self messages stream true modalities in
  match completion with
  | Streamed s => process_stream print_output s
  | Complete response =>
      do when print_output (out (PrintResponse response))
      then ret response
  end.

(** [create_client] *)
Definition create_client (w : world) (api_key base_url model : option string)
  : M AIClient :=
  try_except (AIClient_init w api_key base_url model)
    is_Exception
    (fun e => do out (PrintCreateError e) then raise e).

(** ** [get_screenshot] (src/utils/screenshot.py)

    Embedded at its default [save_path], the only one the repository
    calls it with.  The directory of [./test.png] is the current
    directory, so [os.makedirs(..., exist_ok=True)] of line 25 finds it
    and creates nothing.  [screenshot w] is the outcome of the capture of
    line 27; [save] then opens [./test.png] for writing, which fails on a
    directory and otherwise leaves the image there. *)
Definition default_save_path : string := "./test.png".

Definition get_screenshot (w : world) : M string :=
  fun st =>
    match screenshot w with
    | inl e => (st, Raise e)
    | inr data =>
        match fs st !! default_save_path with
        | Some Directory =>
            (st, Raise (Exn IsADirectoryError
                          (is_a_directory w default_save_path)))
        | _ =>
            ({| stdout := stdout st;
                requests := requests st;
                fs := <[default_save_path := File data]> (fs st) |},
             Return default_save_path)
        end
    end.

(** [os.path.exists] *)
Definition path_exists (p : string) : M bool :=
  fun st =>
    (st, Return (match fs st !! p with Some _ => true | None => false end)).

(** ** [cli] (src/cli/commands.py) *)

Definition exit_keywords : list string := ["exit"; "quit"].

(** The [while True] loop of the interactive mode, lines 80-86, over the
    lines that the user types.  [click.prompt] writes the prompt and reads
    a line; having no default, it asks again on an empty line and so
    never returns one; it raises [Abort] when the input has ended. *)
Fixpoint interactive_loop (w : world) (client : AIClient)
    (system_prompt : string) (inputs : list string) : M unit :=
  do out (Prompt "用户") then
  match inputs with
  | [] => raise (Exn Abort EmptyString)
  | line :: rest =>
      if negb (str_truthy line) then
        (* still inside [click.prompt]: the same question again *)
        interactive_loop w client system_prompt rest
      else
        let user_input := line in
        if str_in (lower user_input) exit_keywords then ret tt
        else
          do text_completion w client user_input system_prompt true true
          then interactive_loop w client system_prompt rest
  end.

Definition default_welcome : string :=
  "欢迎使用AI助手！我可以回答问题、提供信息或协助您完成任务。输入'exit'或'quit'退出对话。".

(** The body of the [try] statement of [cli], lines 45-86. *)
Definition cli_body (w : world) (text : option string) (image : bool)
    (path prompt start : option string) (inputs : list string) : M unit :=
  if image || truthy path then
    let image_prompt := or_default text "请描述并分析这张图片中的内容" in
    let* image_path :=
      (match path with
       | Some p => if str_truthy p then ret p else get_screenshot w
       | None => get_screenshot w
       end) in
    let system_prompt := or_default prompt "你是一个擅长分析图像的助手。" in
    let* found := path_exists image_path in
    if negb found then
      out (Echo ("错误: 图片文件不存在: " ++ image_path)%string)
    else
      do out (Echo ("正在分析图片: " ++ image_path)%string) then
      let* client := create_client w None None None in
      do image_text_completion w client image_prompt image_path system_prompt
           true true None
      then ret tt
  else if truthy text then
    let system_prompt := or_default prompt "你是一个智能AI助手。" in
    let* client := create_client w None None None in
    do text_completion w client (default EmptyString text) system_prompt
         true true
    then ret tt
  else
    let welcome_message := or_default start default_welcome in
    let system_prompt := or_default prompt "你是一个智能AI助手。" in
    do out (Echo welcome_message) then
    let* client := create_client w None None None in
    interactive_loop w client system_prompt inputs.

(** The [except] clauses of [cli], lines 87-92, tried in order. *)
Definition cli_handler (e : exn) : option (M unit) :=
  if is_FileNotFoundError e then
    Some (out (Echo ("文件未找到错误: " ++ exn_str e)%string))
  else if is_ValueError e then
    Some (out (Echo ("值错误: " ++ exn_str e)%string))
  else if is_OSError e then
    Some (out (Echo ("操作错误: " ++ exn_str e)%string))
  else None.

(** [cli] *)
Definition cli (w : world) (text : option string) (image : bool)
    (path prompt start : option string) (inputs : list string) : M unit :=
  fun st =>
    match cli_body w text image path prompt start inputs st with
    | (st', Return r) => (st', Return r)
    | (st', Raise e) =>
        match cli_handler e with
        | Some h => h st'
        | None => (st', Raise e)
        end
    end.

(** The status with which the process ends: 0 when [cli] returns, 1 when
    an exception leaves it. *)
Definition exit_status {A} (r : result A) : Z :=
  match r with
  | Return _ => 0
  | Raise _ => 1
  end.

(** ** What the terminal shows *)

Definition nl : string := String "010"%char EmptyString.

(** The text that each call writes to standard output. *)
Definition render (ev : event) : string :=
  match ev with
  | PrintContent c => c
  | PrintUsage u =>
      nl ++ nl ++ "提问: " ++ pretty (prompt_tokens u) ++ " tokens,"
         ++ "回答: " ++ pretty (completion_tokens u) ++ " tokens,"
         ++ "总长度: " ++ pretty (total_tokens u) ++ " tokens." ++ nl
  | PrintStreamError e => nl ++ "处理响应时发生错误: " ++ exn_str e ++ nl
  | PrintResponse r => r ++ nl
  | PrintCreateError e => "创建客户端时发生错误: " ++ exn_str e ++ nl
  | Echo s => s ++ nl
  | Prompt t => t ++ ": "
  end%string.

Definition terminal (evs : list event) : string :=
  String.concat EmptyString (map render evs).

(** ** Vocabulary of the properties *)

(** A state after some more output. *)
Definition add_out (st : state) (evs : list event) : state :=
  {| stdout := stdout st ++ evs; requests := requests st; fs := fs st |}.

(** An iterator that yields [chunks] and is then exhausted. *)
Definition stream_of (chunks : list ChatCompletionChunk) : stream :=
  {| yielded := chunks; failure := None |}.

(** An iterator that yields [chunks] and then raises [e]. *)
Definition broken_stream (chunks : list ChatCompletionChunk) (e : exn)
  : stream :=
  {| yielded := chunks; failure := Some e |}.

(** The text delta that a chunk carries, if it has the nested shape
    [choices[0].delta.content] with a string at the end. *)
Definition text_delta (chunk : ChatCompletionChunk) : option string :=
  match choices chunk with
  | AttrVal (c0 :: _) =>
      match delta c0 with
      | AttrVal d =>
          match content d with
          | AttrVal s => Some s
          | _ => None
          end
      | _ => None
      end
  | _ => None
  end.

(** The text deltas of a chunk sequence, in arrival order. *)
Definition deltas (chunks : list ChatCompletionChunk) : list string :=
  omap text_delta chunks.

(** The non-empty ones among them. *)
Definition nonempty_deltas (chunks : list ChatCompletionChunk) : list string :=
  List.filter str_truthy (deltas chunks).

(** [d1 + d2 + ... + dn] *)
Definition join (ds : list string) : string := String.concat EmptyString ds.

(** The usage payload that a chunk carries. *)
Definition usage_payload (chunk : ChatCompletionChunk)
  : option CompletionUsage :=
  match usage chunk with
  | AttrVal u => Some u
  | _ => None
  end.

(** The last usage payload of a chunk sequence, in iteration order. *)
Definition last_usage (chunks : list ChatCompletionChunk)
  : option CompletionUsage :=
  last (omap usage_payload chunks).

(** The same chunks with their usage attributes overwritten, one by one,
    by those of [us] (the chunks beyond the length of [us] are kept). *)
Fixpoint with_usages (chunks : list ChatCompletionChunk)
    (us : list (pyattr CompletionUsage)) : list ChatCompletionChunk :=
  match chunks, us with
  | c :: cs, u :: us' =>
      {| choices := choices c; usage := u |} :: with_usages cs us'
  | cs, _ => cs
  end.

(** The arguments of the calls of line 118 among the output, in order. *)
Definition emitted (evs : list event) : list string :=
  omap (fun ev => match ev with PrintContent c => Some c | _ => None end) evs.

(** The calls of line 118 that a chunk sequence causes. *)
Definition prints (print_output : bool) (chunks : list ChatCompletionChunk)
  : list event :=
  if print_output then PrintContent <$> nonempty_deltas chunks else [].

(** The summary of line 126, printed when a usage payload was seen. *)
Definition usage_summary (print_output : bool) (u : option CompletionUsage)
  : list event :=
  match u with
  | Some x => if print_output then [PrintUsage x] else []
  | None => []
  end.

(** A chunk without the nested shape, case by case. *)
Inductive lacks_shape : ChatCompletionChunk -> Prop :=
| no_choices u :
    lacks_shape {| choices := NoAttr; usage := u |}
| null_choices u :
    lacks_shape {| choices := AttrNone; usage := u |}
| empty_choices u :
    lacks_shape {| choices := AttrVal []; usage := u |}
| no_delta cs u :
    lacks_shape {| choices := AttrVal ({| delta := NoAttr |} :: cs);
                   usage := u |}
| null_delta cs u :
    lacks_shape {| choices := AttrVal ({| delta := AttrNone |} :: cs);
                   usage := u |}
| no_content cs u :
    lacks_shape
      {| choices := AttrVal ({| delta := AttrVal {| content := NoAttr |} |} :: cs);
         usage := u |}
| null_content cs u :
    lacks_shape
      {| choices := AttrVal ({| delta := AttrVal {| content := AttrNone |} |} :: cs);
         usage := u |}
| empty_content cs u :
    lacks_shape
      {| choices :=
           AttrVal ({| delta := AttrVal {| content := AttrVal EmptyString |} |} :: cs);
         usage := u |}.

(** The classes that the [except] clauses of [cli] name. *)
Definition caught (e : exn) : bool :=
  is_FileNotFoundError e || is_ValueError e || is_OSError e.

(** The line that [cli] writes for a caught exception. *)
Definition caught_message (e : exn) : string :=
  ((if is_FileNotFoundError e then "文件未找到错误: "
    else if is_ValueError e then "值错误: "
    else "操作错误: ") ++ exn_str e)%string.

(** The request of a text exchange, as [text_completion] builds it. *)
Definition text_request (self : AIClient) (prompt system_prompt : string)
  : request :=
  {| req_model := model self;
     req_messages :=
       [ {| msg_role := system; msg_content := PlainText system_prompt |};
         {| msg_role := user; msg_content := PlainText prompt |} ];
     req_stream := true;
     req_stream_options := Some true;
     req_modalities := None |}.

(** The request of an image exchange, written out: the system prompt as
    the text of the system message, then the user message with the image
    reference [url] first and the text of the prompt second. *)
Definition image_request (self : AIClient) (prompt url system_prompt : string)
    (stream : bool) (modalities : option (list string)) : request :=
  {| req_model := model self;
     req_messages :=
       [ {| msg_role := system;
            msg_content := Parts [TextPart system_prompt] |};
         {| msg_role := user;
            msg_content := Parts [ImageUrlPart url; TextPart prompt] |} ];
     req_stream := stream;
     req_stream_options := if stream then Some true else None;
     req_modalities :=
       match modalities with
       | None => Some ["text"]
       | Some m => Some m
       end |}.

(** A line that matches an exit keyword, whatever the case of its
    letters. *)
Definition is_exit (line : string) : Prop :=
  lower line = "exit" \/ lower line = "quit".

(** A service whose streamed calls all succeed and whose iterators all
    end without an exception. *)
Definition serves (w : world) : Prop :=
  forall n params, exists chunks, create_stream w n params = inr (stream_of chunks).

(** The field of the configuration that is reported missing, looking at
    api_key first, then base_url, then model. *)
Inductive field : Type := ApiKey | BaseUrl | Model.

Definition first_missing (k u m : option string) : option field :=
  if negb (truthy k) then Some ApiKey
  else if negb (truthy u) then Some BaseUrl
  else if negb (truthy m) then Some Model
  else None.

Definition config_error (f : field) : exn :=
  Exn ValueError
    match f with
    | ApiKey => msg_api_key
    | BaseUrl => msg_base_url
    | Model => msg_model
    end.

(** ** Sample data *)

Definition text_chunk (c : string) : ChatCompletionChunk :=
  {| choices := AttrVal [ {| delta := AttrVal {| content := AttrVal c |} |} ];
     usage := AttrNone |}.

Definition usage_chunk (u : CompletionUsage) : ChatCompletionChunk :=
  {| choices := AttrVal []; usage := AttrVal u |}.

Definition sample_usage : CompletionUsage :=
  {| prompt_tokens := 3; completion_tokens := 2; total_tokens := 5 |}.

Definition hello_chunks : list ChatCompletionChunk :=
  [text_chunk "He"; text_chunk "llo"; usage_chunk sample_usage].

Definition sample_environ : gmap string string :=
  {[ "API_KEY" := "sk-test"; "BASE_URL" := "https://api.example.com/v1" ]}.

Definition sample_dotenv : gmap string string :=
  {[ "MODEL" := "gpt-test" ]}.

Definition sample_client : AIClient :=
  {| api_key := "sk-test";
     base_url := "https://api.example.com/v1";
     model := "gpt-test" |}.

(** The exceptions of [open] in a process that only meets plain paths:
    what is not there is reported as not found. *)
Definition plainly_missing (files : gmap string node) (path : string) : exn :=
  Exn FileNotFoundError
    ("[Errno 2] No such file or directory: '" ++ path ++ "'")%string.

Definition is_a_directory_text (path : string) : string :=
  ("[Errno 21] Is a directory: '" ++ path ++ "'")%string.

(** Whether a path runs through a regular file: some part of it before
    a [/] names one. *)
Fixpoint through_a_file (files : gmap string node) (before rest : string)
  : bool :=
  match rest with
  | EmptyString => false
  | String c r =>
      if Ascii.eqb c "/" then
        match files !! before with
        | Some (File _) => true
        | _ => through_a_file files (before ++ "/")%string r
        end
      else through_a_file files (before ++ String c EmptyString)%string r
  end.

(** The exceptions of [open] where paths may run through files: such a
    path is not a directory entry, any other is not found. *)
Definition missing_or_not_a_directory (files : gmap string node)
    (path : string) : exn :=
  if through_a_file files EmptyString path then
    Exn NotADirectoryError ("[Errno 20] Not a directory: '" ++ path ++ "'")%string
  else plainly_missing files path.

(** A configured process whose service answers every streamed call with
    [s]. *)
Definition sample_world (s : stream) : world :=
  {| environ := sample_environ;
     dotenv := sample_dotenv;
     create_stream := fun _ _ => inr s;
     create_full := fun _ _ => inl (Exn APIError "not a streamed call");
     screenshot := inr [];
     open_missing := plainly_missing;
     is_a_directory := is_a_directory_text |}.

(** A process without any configuration. *)
Definition bare_world : world :=
  {| environ := ∅;
     dotenv := ∅;
     create_stream := fun _ _ => inr (stream_of []);
     create_full := fun _ _ => inl (Exn APIError "not a streamed call");
     screenshot := inr [];
     open_missing := plainly_missing;
     is_a_directory := is_a_directory_text |}.

Definition connection_reset : exn :=
  Exn ConnectionError "[Errno 104] Connection reset by peer".

Definition png_bytes : list byte :=
  [Byte.x89; Byte.x50; Byte.x4e; Byte.x47].

Definition sample_files : gmap string node :=
  {[ "shot.png" := File png_bytes; "pictures" := Directory ]}.

Definition other_bytes : list byte :=
  [Byte.x89; Byte.x50; Byte.x4e; Byte.x48].

(** Three image files, two of them with the same bytes. *)
Definition album : gmap string node :=
  {[ "shot.png" := File png_bytes;
     "copy.png" := File png_bytes;
     "other.png" := File other_bytes ]}.

(** A configured process in which [open] tells the two apart. *)
Definition nested_world : world :=
  {| environ := sample_environ;
     dotenv := sample_dotenv;
     create_stream := fun _ _ => inr (stream_of hello_chunks);
     create_full := fun _ _ => inl (Exn APIError "not a streamed call");
     screenshot := inr png_bytes;
     open_missing := missing_or_not_a_directory;
     is_a_directory := is_a_directory_text |}.

(** ** [encode_image] (src/utils/screenshot.py) *)

Definition encode_image (w : world) (image_path : string) : M string :=
  let* found := path_exists image_path in
  if negb found then
    raise (Exn FileNotFoundError ("图片文件不存在: " ++ image_path)%string)
  else
    let* data := open_read w image_path in
    ret (b64encode data).

(** ** Further vocabulary *)

(** The requests that [cli] builds for a client: a text exchange, or an
    image exchange whose reference is a data URI. *)
Inductive cli_request (client : AIClient) : request -> Prop :=
| cli_text_request prompt system_prompt :
    cli_request client (text_request client prompt system_prompt)
| cli_image_request prompt url system_prompt :
    startswith url "data:image" = true ->
    cli_request client
      (image_request client prompt url system_prompt true None).

(** A configured process whose service refuses every call with [e]. *)
Definition refusing_world (e : exn) : world :=
  {| environ := sample_environ;
     dotenv := sample_dotenv;
     create_stream := fun _ _ => inl e;
     create_full := fun _ _ => inl e;
     screenshot := inr png_bytes;
     open_missing := plainly_missing;
     is_a_directory := is_a_directory_text |}.

Definition service_down : exn := Exn APIError "Connection error.".

(** * Proofs *)

(** ** Strings *)

Lemma str_app_nil_r (s : string) : (s ++ EmptyString)%string = s.
Proof.
  induction s as [|c s IH]; [reflexivity|].
  change (String c (s ++ EmptyString)%string = String c s). by rewrite IH.
Qed.

Lemma str_app_assoc (a b c : string) :
  ((a ++ b) ++ c)%string = (a ++ (b ++ c))%string.
Proof.
  induction a as [|x a IH]; [reflexivity|].
  change (String x ((a ++ b) ++ c)%string = String x (a ++ (b ++ c))%string).
  by rewrite IH.
Qed.

Lemma join_cons (d : string) (ds : list string) :
  join (d :: ds) = (d ++ join ds)%string.
Proof.
  destruct ds as [|d' ds]; cbn [join String.concat].
  - by rewrite str_app_nil_r.
  - reflexivity.
Qed.

Lemma join_app (xs ys : list string) :
  join (xs ++ ys) = (join xs ++ join ys)%string.
Proof.
  induction xs as [|x xs IH]; [reflexivity|].
  change ((x :: xs) ++ ys) with (x :: (xs ++ ys)).
  by rewrite !join_cons, IH, str_app_assoc.
Qed.

(** Empty deltas add nothing to the concatenation. *)
Lemma join_filter_truthy (ds : list string) :
  join (List.filter str_truthy ds) = join ds.
Proof.
  induction ds as [|d ds IH]; [reflexivity|].
  cbn [List.filter]. destruct d as [|c d]; cbn [str_truthy].
  - by rewrite join_cons, IH.
  - by rewrite !join_cons, IH.
Qed.

(** ** States *)

Lemma add_out_nil (st : state) : add_out st [] = st.
Proof. destruct st. unfold add_out. cbn. by rewrite app_nil_r. Qed.

Lemma add_out_app (st : state) (a b : list event) :
  add_out (add_out st a) b = add_out st (a ++ b).
Proof. unfold add_out. cbn. by rewrite app_assoc. Qed.

Lemma out_run (ev : event) (st : state) :
  out ev st = (add_out st [ev], Return tt).
Proof. reflexivity. Qed.

Lemma when_run (b : bool) (ev : event) (st : state) :
  when b (out ev) st = (add_out st (if b then [ev] else []), Return tt).
Proof. destruct b; cbn; [reflexivity|]. by rewrite add_out_nil. Qed.


(** ** The stream aggregator *)

Lemma nonempty_deltas_cons (c : ChatCompletionChunk) (cs : list ChatCompletionChunk) :
  nonempty_deltas (c :: cs) = nonempty_deltas [c] ++ nonempty_deltas cs.
Proof.
  unfold nonempty_deltas, deltas. cbn [omap list_omap].
  destruct (text_delta c) as [d|]; [|reflexivity].
  cbn [List.filter]. by destruct (str_truthy d).
Qed.

Lemma nonempty_deltas_app (xs ys : list ChatCompletionChunk) :
  nonempty_deltas (xs ++ ys) = nonempty_deltas xs ++ nonempty_deltas ys.
Proof.
  induction xs as [|x xs IH]; [reflexivity|].
  change ((x :: xs) ++ ys) with (x :: (xs ++ ys)).
  by rewrite (nonempty_deltas_cons x xs), (nonempty_deltas_cons x (xs ++ ys)), IH, app_assoc.
Qed.

Lemma prints_cons p (c : ChatCompletionChunk) (cs : list ChatCompletionChunk) :
  prints p (c :: cs) = prints p [c] ++ prints p cs.
Proof.
  unfold prints. destruct p; [|reflexivity].
  by rewrite nonempty_deltas_cons, fmap_app.
Qed.

(** Closes the cases of [take_content] in which the chunk gives no text. *)
Ltac no_text p :=
  destruct p; cbn; by rewrite add_out_nil, str_app_nil_r.

Lemma take_content_run p chunk full st :
  take_content p chunk full st
  = (add_out st (prints p [chunk]),
     Return (full ++ join (nonempty_deltas [chunk]))%string).
Proof.
  unfold take_content, has_content, get_content, prints, nonempty_deltas, deltas.
  cbn [omap list_omap]. unfold text_delta.
  destruct chunk as [ch us]; cbn [choices].
  destruct ch as [| |[|[d] cs]]; cbn [delta]; try no_text p.
  destruct d as [| |[ct]]; cbn [content hasattr]; try no_text p.
  destruct ct as [| |s]; cbn [hasattr]; try no_text p.
  destruct s as [|a s]; cbn [str_truthy List.filter]; [no_text p|].
  unfold bind. rewrite when_run. unfold ret.
  destruct p; reflexivity.
Qed.

Lemma last_usage_cons (c : ChatCompletionChunk) (cs : list ChatCompletionChunk)
    (u : option CompletionUsage) :
  from_option Some (take_usage c u) (last_usage cs)
  = from_option Some u (last_usage (c :: cs)).
Proof.
  unfold last_usage, take_usage, usage_payload at 2. cbn [omap list_omap].
  destruct (usage c) as [| |x]; try reflexivity.
  rewrite last_cons. by destruct (last _).
Qed.

(** The loop, run to the end of the chunks. *)
Lemma for_chunks_run p (chunks : list ChatCompletionChunk) :
  forall full u st,
    for_chunks p chunks full u st
    = (add_out st (prints p chunks),
       Return ((full ++ join (nonempty_deltas chunks))%string,
               from_option Some u (last_usage chunks))).
Proof.
  induction chunks as [|c cs IH]; intros full u st.
  - cbn. unfold ret, prints. rewrite str_app_nil_r.
    destruct p; cbn; by rewrite add_out_nil.
  - cbn [for_chunks]. unfold bind. rewrite take_content_run, IH.
    rewrite add_out_app, <- prints_cons, str_app_assoc, <- join_app.
    by rewrite <- nonempty_deltas_cons, last_usage_cons.
Qed.

Lemma for_completion_ok p (chunks : list ChatCompletionChunk) st :
  for_completion p (stream_of chunks) st
  = (add_out st (prints p chunks),
     Return (join (nonempty_deltas chunks), last_usage chunks)).
Proof.
  unfold for_completion, bind, stream_of. cbn [yielded failure].
  rewrite for_chunks_run. unfold ret. cbn.
  by destruct (last_usage chunks).
Qed.

Lemma for_completion_broken p (chunks : list ChatCompletionChunk) e st :
  for_completion p (broken_stream chunks e) st
  = (add_out st (prints p chunks), Raise e).
Proof.
  unfold for_completion, bind, broken_stream. cbn [yielded failure].
  by rewrite for_chunks_run.
Qed.

(** [process_stream] on an iterator that ends normally. *)
Lemma process_stream_ok p (chunks : list ChatCompletionChunk) st :
  process_stream p (stream_of chunks) st
  = (add_out st (prints p chunks ++ usage_summary p (last_usage chunks)),
     Return (join (nonempty_deltas chunks))).
Proof.
  unfold process_stream, try_except, bind. rewrite for_completion_ok.
  cbn [fst snd]. unfold usage_summary.
  destruct (last_usage chunks) as [u|].
  - rewrite when_run. unfold ret. by rewrite add_out_app.
  - unfold ret. by rewrite app_nil_r.
Qed.

(** [process_stream] on an iterator that raises after [chunks]. *)
Lemma process_stream_broken p (chunks : list ChatCompletionChunk) e st :
  process_stream p (broken_stream chunks e) st
  = (add_out st (prints p chunks
                 ++ if p && is_Exception e then [PrintStreamError e] else []),
     Raise e).
Proof.
  unfold process_stream, try_except, bind. rewrite for_completion_broken.
  destruct (is_Exception e).
  - rewrite when_run. unfold raise. rewrite add_out_app.
    by rewrite andb_true_r.
  - by rewrite andb_false_r, app_nil_r.
Qed.

Lemma emitted_app (xs ys : list event) :
  emitted (xs ++ ys) = emitted xs ++ emitted ys.
Proof. unfold emitted. apply omap_app. Qed.

Lemma emitted_prints (chunks : list ChatCompletionChunk) :
  emitted (prints true chunks) = nonempty_deltas chunks.
Proof.
  unfold prints, emitted. induction (nonempty_deltas chunks) as [|d ds IH];
    [reflexivity|].
  cbn. by rewrite IH.
Qed.

Lemma emitted_usage_summary p u : emitted (usage_summary p u) = [].
Proof. destruct u, p; reflexivity. Qed.

(** [process_stream] on any iterator. *)
Lemma process_stream_run p (s : stream) st :
  process_stream p s st
  = match failure s with
    | None =>
        (add_out st (prints p (yielded s)
                     ++ usage_summary p (last_usage (yielded s))),
         Return (join (nonempty_deltas (yielded s))))
    | Some e =>
        (add_out st (prints p (yielded s)
                     ++ if p && is_Exception e then [PrintStreamError e] else []),
         Raise e)
    end.
Proof.
  destruct s as [chunks [e|]]; cbn [failure yielded].
  - apply (process_stream_broken p chunks e st).
  - apply (process_stream_ok p chunks st).
Qed.

Lemma text_delta_with_usage (c : ChatCompletionChunk) u :
  text_delta {| choices := choices c; usage := u |} = text_delta c.
Proof. reflexivity. Qed.

Lemma deltas_with_usages (chunks : list ChatCompletionChunk) :
  forall us, deltas (with_usages chunks us) = deltas chunks.
Proof.
  unfold deltas. induction chunks as [|c cs IH]; intros [|u us]; try reflexivity.
  cbn [with_usages omap list_omap].
  by rewrite text_delta_with_usage, IH.
Qed.

(** C1: for every finite chunk sequence, whatever usage payloads its
    chunks carry, [process_stream] returns the concatenation of the text
    deltas of the chunks in arrival order, with [print_output] set or
    not. *)
Theorem process_stream_returns_concatenation
    (print_output : bool) (chunks : list ChatCompletionChunk)
    (us : list (pyattr CompletionUsage)) (st : state) :
  (process_stream print_output (stream_of (with_usages chunks us)) st).2
  = Return (join (deltas chunks)).
Proof.
  rewrite process_stream_ok. cbn [snd]. unfold nonempty_deltas.
  by rewrite join_filter_truthy, deltas_with_usages.
Qed.

(** C2: with [print_output] set, the output that [process_stream] adds
    holds one call of line 118 per non-empty text delta, in arrival order
    and with that delta as argument, and the returned string is the
    concatenation of the arguments of these calls. *)
Theorem emit_once_per_nonempty_delta
    (chunks : list ChatCompletionChunk) (st : state) :
  exists evs : list event,
    (process_stream true (stream_of chunks) st).1 = add_out st evs
    /\ emitted evs = List.filter str_truthy (deltas chunks)
    /\ (process_stream true (stream_of chunks) st).2
       = Return (join (emitted evs)).
Proof.
  rewrite process_stream_ok. eexists. split; [reflexivity|].
  rewrite emitted_app, emitted_prints, emitted_usage_summary, app_nil_r.
  split; reflexivity.
Qed.

(** C3, as the code has it: the loop keeps the last usage payload in
    iteration order, whichever chunk carries it, and none when no chunk
    carries one, and does not raise; the value that [process_stream]
    returns is the text alone, and the payload kept shows only as the
    summary printed after the text when [print_output] is set. *)
Theorem usage_last_write_wins
    (print_output : bool) (chunks : list ChatCompletionChunk) (st : state) :
  (for_completion print_output (stream_of chunks) st).2
  = Return (join (deltas chunks), last_usage chunks)
  /\ process_stream print_output (stream_of chunks) st
     = (add_out st (prints print_output chunks
                    ++ match last_usage chunks with
                       | Some u => if print_output then [PrintUsage u] else []
                       | None => []
                       end),
        Return (join (deltas chunks))).
Proof.
  rewrite for_completion_ok, process_stream_ok. unfold nonempty_deltas.
  rewrite join_filter_truthy. split; reflexivity.
Qed.

(** C4: when the iterator raises [e] after yielding [chunks],
    [process_stream] raises the same [e], and the output keeps every call
    of line 118 made for [chunks], followed by no further such call. *)
Theorem stream_failure_reraised
    (print_output : bool) (chunks : list ChatCompletionChunk) (e : exn)
    (st : state) :
  exists tail : list event,
    process_stream print_output (broken_stream chunks e) st
    = (add_out st (prints print_output chunks ++ tail), Raise e)
    /\ emitted tail = []
    /\ (for_chunks print_output chunks EmptyString None st).1
       = add_out st (prints print_output chunks).
Proof.
  rewrite process_stream_broken, for_chunks_run. eexists.
  split; [reflexivity|]. split; [|reflexivity].
  by destruct (print_output && is_Exception e).
Qed.

Lemma lacks_shape_no_delta (chunk : ChatCompletionChunk) :
  lacks_shape chunk -> nonempty_deltas [chunk] = [].
Proof. by destruct 1. Qed.

(** C5: a chunk without the nested shape makes [process_stream] neither
    raise nor change its text: the result and the calls of line 118 are
    those of the sequence without that chunk. *)
Theorem malformed_chunk_skipped
    (chunk : ChatCompletionChunk) (print_output : bool)
    (before after : list ChatCompletionChunk) (fail : option exn)
    (st : state) :
  lacks_shape chunk ->
  let with_it :=
    process_stream print_output
      {| yielded := before ++ chunk :: after; failure := fail |} st in
  let without :=
    process_stream print_output
      {| yielded := before ++ after; failure := fail |} st in
  with_it.2 = without.2
  /\ emitted (stdout with_it.1) = emitted (stdout without.1)
  /\ match fail with
     | None => with_it.2 = Return (join (deltas (before ++ after)))
     | Some e => with_it.2 = Raise e
     end.
Proof.
  intros Hshape with_it without. subst with_it without.
  rewrite !process_stream_run. cbn [failure yielded].
  assert (Hsame : nonempty_deltas (before ++ chunk :: after)
                  = nonempty_deltas (before ++ after)).
  { rewrite !nonempty_deltas_app, (nonempty_deltas_cons chunk after).
    by rewrite (lacks_shape_no_delta chunk Hshape). }
  assert (Hprints : prints print_output (before ++ chunk :: after)
                    = prints print_output (before ++ after)).
  { unfold prints. by rewrite Hsame. }
  destruct fail as [e|]; cbn [fst snd stdout add_out].
  - split; [reflexivity|]. split; [|reflexivity].
    by rewrite Hprints.
  - rewrite Hsame, Hprints. split; [reflexivity|]. split.
    + by rewrite !emitted_app, !emitted_usage_summary.
    + unfold nonempty_deltas. by rewrite join_filter_truthy.
Qed.

(** C10: the string that [process_stream] returns, or the exception that
    it raises, is the same with [print_output] set and unset. *)
Theorem print_output_does_not_change_result (s : stream) (st : state) :
  (process_stream true s st).2 = (process_stream false s st).2.
Proof. rewrite !process_stream_run. by destruct (failure s). Qed.

Lemma malformed_chunk_skipped_witness :
  lacks_shape (usage_chunk sample_usage)
  /\ (process_stream true
        (stream_of ([text_chunk "He"] ++ usage_chunk sample_usage
                      :: [text_chunk "llo"])) (initial ∅)).2
     = (process_stream true
          (stream_of ([text_chunk "He"] ++ [text_chunk "llo"])) (initial ∅)).2.
Proof.
  split; [apply empty_choices|].
  exact (proj1 (malformed_chunk_skipped (usage_chunk sample_usage) true
                  [text_chunk "He"] [text_chunk "llo"] None (initial ∅)
                  (empty_choices _))).
Defined.

(** C3 as stated fails: the value that [process_stream] returns does not
    determine the last usage payload, so it has no usage field. *)
Lemma usage_not_in_returned_value :
  ~ exists usage_field : result string -> option CompletionUsage,
      forall (print_output : bool) (chunks : list ChatCompletionChunk)
             (st : state),
        usage_field (process_stream print_output (stream_of chunks) st).2
        = last_usage chunks.
Proof.
  intros [usage_field H].
  pose proof (H true [] (initial ∅)) as H0.
  pose proof (H true [usage_chunk sample_usage] (initial ∅)) as H1.
  vm_compute in H0, H1. congruence.
Qed.

(** End to end: the two text chunks and the trailing usage payload. *)
Example hello_terminal :
  let r := process_stream true (stream_of hello_chunks) (initial ∅) in
  r.2 = Return "Hello"
  /\ terminal (stdout r.1)
     = ("Hello" ++ nl ++ nl
        ++ "提问: 3 tokens,回答: 2 tokens,总长度: 5 tokens." ++ nl)%string.
Proof. split; vm_compute; reflexivity. Qed.

(** ** Client construction *)

Lemma AIClient_init_run w (api_key base_url model k u m : option string) st :
  resolve_config w api_key base_url model = (k, u, m) ->
  AIClient_init w api_key base_url model st
  = (st, match first_missing k u m with
         | None =>
             Return (Build_AIClient (default EmptyString k)
                       (default EmptyString u) (default EmptyString m))
         | Some f => Raise (config_error f)
         end).
Proof.
  intros Hres. unfold AIClient_init, first_missing. rewrite Hres.
  destruct (truthy k); [|reflexivity].
  destruct (truthy u); [|reflexivity].
  destruct (truthy m); reflexivity.
Qed.

(** Each message belongs to one field. *)
Lemma config_error_inj (f g : field) : config_error f = config_error g -> f = g.
Proof. destruct f, g; intros H; try reflexivity; vm_compute in H; discriminate H. Qed.

Lemma create_client_run w (a b c : option string) st :
  create_client w a b c st
  = match AIClient_init w a b c st with
    | (st', Return client) => (st', Return client)
    | (st', Raise e) =>
        if is_Exception e then (add_out st' [PrintCreateError e], Raise e)
        else (st', Raise e)
    end.
Proof.
  unfold create_client, try_except.
  destruct (AIClient_init w a b c st) as [st' [client|e]]; [reflexivity|].
  destruct (is_Exception e); reflexivity.
Qed.

(** C6: with [k], [u], [m] the values of api_key, base_url and model after
    the fallback to the environment, construction returns a client holding
    them when none of them is empty, and otherwise raises the error that
    names the first empty one, in the order api_key, base_url, model;
    [create_client] does the same and prints the error before it raises
    it again. *)
Theorem client_construction
    (w : world) (arg_api_key arg_base_url arg_model k u m : option string)
    (st : state) :
  resolve_config w arg_api_key arg_base_url arg_model = (k, u, m) ->
  let init := AIClient_init w arg_api_key arg_base_url arg_model st in
  let create := create_client w arg_api_key arg_base_url arg_model st in
  let fails_on f :=
    init = (st, Raise (config_error f))
    /\ create = (add_out st [PrintCreateError (config_error f)],
                 Raise (config_error f)) in
  (truthy k = true -> truthy u = true -> truthy m = true ->
   exists client,
     init = (st, Return client) /\ create = (st, Return client)
     /\ Some (api_key client) = k /\ Some (base_url client) = u
     /\ Some (model client) = m)
  /\ (truthy k = false -> fails_on ApiKey)
  /\ (truthy k = true -> truthy u = false -> fails_on BaseUrl)
  /\ (truthy k = true -> truthy u = true -> truthy m = false ->
      fails_on Model).
Proof.
  intros Hres init create fails_on. subst init create fails_on. cbv beta.
  rewrite create_client_run, (AIClient_init_run _ _ _ _ _ _ _ _ Hres).
  unfold first_missing.
  split; [|split; [|split]].
  - intros Hk Hu Hm. rewrite Hk, Hu, Hm. cbn [negb].
    eexists. split; [reflexivity|]. split; [reflexivity|].
    destruct k as [k|], u as [u|], m as [m|]; try discriminate.
    by cbn.
  - intros Hk. rewrite Hk. by cbn.
  - intros Hk Hu. rewrite Hk, Hu. by cbn.
  - intros Hk Hu Hm. rewrite Hk, Hu, Hm. by cbn.
Qed.

Lemma client_construction_witness :
  (exists client,
     create_client (sample_world (stream_of [])) None None None (initial ∅)
     = (initial ∅, Return client))
  /\ (create_client bare_world None None None (initial ∅)).2
     = Raise (config_error ApiKey)
  /\ (create_client bare_world (Some "sk-test") None None (initial ∅)).2
     = Raise (config_error BaseUrl)
  /\ (create_client bare_world (Some "sk-test") (Some "https://h") None
        (initial ∅)).2
     = Raise (config_error Model).
Proof.
  split; [|split; [|split]].
  - destruct (proj1 (client_construction (sample_world (stream_of []))
                       None None None _ _ _ (initial ∅) eq_refl)
                eq_refl eq_refl eq_refl) as (client & _ & Hc & _).
    exists client. exact Hc.
  - destruct (proj1 (proj2 (client_construction bare_world
                       None None None _ _ _ (initial ∅) eq_refl))
                eq_refl) as [_ Hc].
    rewrite Hc. reflexivity.
  - destruct (proj1 (proj2 (proj2 (client_construction bare_world
                       (Some "sk-test") None None _ _ _ (initial ∅) eq_refl)))
                eq_refl eq_refl) as [_ Hc].
    rewrite Hc. reflexivity.
  - destruct (proj2 (proj2 (proj2 (client_construction bare_world
                       (Some "sk-test") (Some "https://h") None _ _ _
                       (initial ∅) eq_refl)))
                eq_refl eq_refl eq_refl) as [_ Hc].
    rewrite Hc. reflexivity.
Defined.

(** The fallback is guarded by the test of line 33: when all three
    arguments are given, an empty one is not replaced from the
    environment, and construction fails on it. *)
Remark explicit_empty_argument_not_replaced (w : world) (u m : string) :
  resolve_config w (Some EmptyString) (Some u) (Some m)
  = (Some EmptyString, Some u, Some m).
Proof. reflexivity. Qed.

(** With an argument left out, an empty one is replaced as well. *)
Remark empty_argument_replaced_with_another_missing :
  resolve_config (sample_world (stream_of [])) (Some EmptyString) None None
  = (Some "sk-test", Some "https://api.example.com/v1", Some "gpt-test").
Proof. reflexivity. Qed.

(** ** Requests and the image reference *)

(** A state after one more call of the service and some more output. *)
Lemma process_stream_requests p (s : stream) st :
  requests (process_stream p s st).1 = requests st
  /\ fs (process_stream p s st).1 = fs st.
Proof. rewrite process_stream_run. by destruct (failure s). Qed.

Lemma send_requests w params st :
  requests (send w params st).1 = requests st ++ [params]
  /\ fs (send w params st).1 = fs st.
Proof.
  unfold send. destruct (req_stream params).
  - by destruct (create_stream w _ params).
  - by destruct (create_full w _ params).
Qed.

(** What follows [chat_completion] in both completion methods leaves the
    requests as they are. *)
Lemma after_completion_requests p (c : completion) st :
  requests
    (match c with
     | Streamed s => process_stream p s
     | Complete response =>
         do when p (out (PrintResponse response)) then ret response
     end st).1 = requests st.
Proof.
  destruct c as [s|r].
  - apply process_stream_requests.
  - unfold bind. rewrite when_run. reflexivity.
Qed.

Lemma image_text_completion_requests w self prompt image_path system_prompt
    stream p modalities url st :
  image_url w image_path st = (st, Return url) ->
  requests (image_text_completion w self prompt image_path system_prompt
              stream p modalities st).1
  = requests st
    ++ [image_request self prompt url system_prompt stream modalities].
Proof.
  intros Hurl. unfold image_text_completion, bind at 1. rewrite Hurl.
  unfold bind, chat_completion.
  rewrite andb_true_r.
  match goal with
  | |- context [send w ?params st] =>
      pose proof (send_requests w params st) as [Hreq _];
      destruct (send w params st) as [st' [c|e]]
  end; cbn [fst] in Hreq.
  - rewrite after_completion_requests. rewrite Hreq.
    unfold image_request. by destruct modalities.
  - cbn [fst]. rewrite Hreq. unfold image_request. by destruct modalities.
Qed.

(** C7, as the code has it: an image argument that starts like a data
    URI is sent as it is, as the image of the user message; any other is
    a path: the file there is read whole and sent as
    [data:image/png;base64,] followed by the base64 text of its bytes;
    when nothing exists at that path [image_text_completion] ends with
    the exception that [open] raises there, with no request made and the
    state as it was.  [cli] tests the path before that: a path at which
    nothing exists is reported as a missing file, with no request
    either. *)
Theorem image_reference
    (w : world) (self : AIClient) (prompt image_path system_prompt : string)
    (stream print_output : bool) (modalities : option (list string))
    (st : state) :
  let run :=
    image_text_completion w self prompt image_path system_prompt
      stream print_output modalities st in
  let sent (reference : string) : request :=
    {| req_model := model self;
       req_messages :=
         [ {| msg_role := system;
              msg_content := Parts [TextPart system_prompt] |};
           {| msg_role := user;
              msg_content := Parts [ImageUrlPart reference; TextPart prompt] |} ];
       req_stream := stream;
       req_stream_options := if stream then Some true else None;
       req_modalities :=
         match modalities with
         | None => Some ["text"]
         | Some m => Some m
         end |} in
  (startswith image_path "data:image" = true ->
   requests run.1 = requests st ++ [sent image_path])
  /\ (forall data,
        startswith image_path "data:image" = false ->
        fs st !! image_path = Some (File data) ->
        requests run.1
        = requests st
          ++ [sent ("data:image/png;base64," ++ b64encode data)%string])
  /\ (startswith image_path "data:image" = false ->
      fs st !! image_path = None ->
      run = (st, Raise (open_missing w (fs st) image_path)))
  /\ (forall text image prompt' start inputs,
        str_truthy image_path = true ->
        fs st !! image_path = None ->
        cli w text image (Some image_path) prompt' start inputs st
        = (add_out st [Echo ("错误: 图片文件不存在: " ++ image_path)%string],
           Return tt)).
Proof.
  intros run sent. subst run sent. split; [|split; [|split]].
  - intros Hpre.
    apply (image_text_completion_requests w self prompt image_path
             system_prompt stream print_output modalities image_path st).
    unfold image_url. by rewrite Hpre.
  - intros data Hpre Hfile.
    apply (image_text_completion_requests w self prompt image_path
             system_prompt stream print_output modalities
             ("data:image/png;base64," ++ b64encode data)%string st).
    unfold image_url, bind, open_read. by rewrite Hpre, Hfile.
  - intros Hpre Hnone.
    unfold image_text_completion, bind at 1, image_url, bind, open_read.
    by rewrite Hpre, Hnone.
  - intros text image prompt' start inputs Hp Hnone.
    unfold cli, cli_body. cbn [truthy]. rewrite Hp, orb_true_r.
    unfold bind at 1. unfold ret at 1.
    unfold bind at 1, path_exists. rewrite Hnone. cbn [negb].
    reflexivity.
Qed.

Lemma image_reference_witness :
  let w := sample_world (stream_of hello_chunks) in
  let st := initial sample_files in
  let sent (reference : string) : request :=
    {| req_model := "gpt-test";
       req_messages :=
         [ {| msg_role := system; msg_content := Parts [TextPart "sys"] |};
           {| msg_role := user;
              msg_content :=
                Parts [ImageUrlPart reference; TextPart "what is this"] |} ];
       req_stream := true;
       req_stream_options := Some true;
       req_modalities := Some ["text"] |} in
  requests (image_text_completion w sample_client "what is this"
              "data:image/png;base64,iVBORw0KGgo=" "sys" true true None st).1
  = [sent "data:image/png;base64,iVBORw0KGgo="]
  /\ requests (image_text_completion w sample_client "what is this"
                 "shot.png" "sys" true true None st).1
     = [sent "data:image/png;base64,iVBORw=="]
  /\ image_text_completion w sample_client "what is this"
       "missing.png" "sys" true true None st
     = (st, Raise (Exn FileNotFoundError
                     "[Errno 2] No such file or directory: 'missing.png'"))
  /\ cli w None false (Some "missing.png") None None [] st
     = (add_out st [Echo "错误: 图片文件不存在: missing.png"], Return tt).
Proof.
  intros w st sent. split; [|split; [|split]].
  - exact (proj1 (image_reference w sample_client "what is this"
                    "data:image/png;base64,iVBORw0KGgo=" "sys" true true None st)
             eq_refl).
  - exact (proj1 (proj2 (image_reference w sample_client "what is this"
                           "shot.png" "sys" true true None st))
             png_bytes eq_refl eq_refl).
  - exact (proj1 (proj2 (proj2 (image_reference w sample_client "what is this"
                           "missing.png" "sys" true true None st)))
             eq_refl eq_refl).
  - exact (proj2 (proj2 (proj2 (image_reference w sample_client "what is this"
                           "missing.png" "sys" true true None st)))
             None false None None [] eq_refl eq_refl).
Defined.

(** C7 as stated fails: below a regular file nothing exists, and [open]
    does not report such a path as not found. *)
Lemma path_below_a_file_is_not_reported_missing :
  let w := nested_world in
  let st := initial sample_files in
  fs st !! "shot.png/x" = None
  /\ startswith "shot.png/x" "data:image" = false
  /\ exists e,
       image_text_completion w sample_client "what is this" "shot.png/x"
         "sys" true true None st = (st, Raise e)
       /\ exn_cls e = NotADirectoryError
       /\ is_FileNotFoundError e = false.
Proof.
  intros w st. split; [reflexivity|]. split; [reflexivity|].
  eexists. split; [reflexivity|]. split; reflexivity.
Qed.

(** ** The interactive loop *)

Lemma str_in_exit (line : string) :
  str_in (lower line) exit_keywords = true <-> is_exit line.
Proof.
  unfold is_exit, exit_keywords. cbn [str_in].
  destruct (String.eqb_spec (lower line) "exit") as [He|He].
  { split; auto. }
  destruct (String.eqb_spec (lower line) "quit") as [Hq|Hq].
  { split; auto. }
  split; [discriminate|]. intros [H|H]; contradiction.
Qed.

(** One exchange with a service that answers. *)
Lemma text_completion_served w self prompt system_prompt st :
  serves w ->
  exists evs text,
    text_completion w self prompt system_prompt true true st
    = ({| stdout := stdout st ++ evs;
          requests := requests st ++ [text_request self prompt system_prompt];
          fs := fs st |},
       Return text).
Proof.
  intros Hw. unfold text_completion, bind, chat_completion, send.
  cbn [req_stream andb].
  match goal with
  | |- context [create_stream w ?n ?params] =>
      destruct (Hw n params) as [chunks Hs]; rewrite Hs
  end.
  rewrite process_stream_ok. unfold add_out. cbn [stdout requests fs].
  eexists _, _. reflexivity.
Qed.

Lemma is_exit_nonempty (line : string) : is_exit line -> str_truthy line = true.
Proof. destruct line; [intros [H|H]; discriminate H|reflexivity]. Qed.

Lemma interactive_loop_run w client system_prompt
    (before : list string) (line : string) (rest : list string) :
  serves w ->
  Forall (fun l => ~ is_exit l) before ->
  is_exit line ->
  forall st, exists evs,
    interactive_loop w client system_prompt (before ++ line :: rest) st
    = ({| stdout := stdout st ++ evs;
          requests :=
            requests st
            ++ map (fun l => text_request client l system_prompt)
                 (List.filter str_truthy before);
          fs := fs st |},
       Return tt).
Proof.
  intros Hw Hbefore Hline.
  induction Hbefore as [|l before Hl _ IH]; intros st.
  - cbn [app interactive_loop List.filter map]. unfold bind. rewrite out_run.
    rewrite (is_exit_nonempty line Hline). cbn [negb].
    apply str_in_exit in Hline. rewrite Hline. unfold ret, add_out.
    cbn [stdout requests fs]. rewrite app_nil_r. eexists. reflexivity.
  - change ((l :: before) ++ line :: rest) with (l :: (before ++ line :: rest)).
    cbn [interactive_loop List.filter]. unfold bind at 1. rewrite out_run.
    destruct (str_truthy l) eqn:Hl'; cbn [negb map].
    + destruct (str_in (lower l) exit_keywords) eqn:Hexit.
      { apply str_in_exit in Hexit. contradiction. }
      unfold bind at 1.
      destruct (text_completion_served w client l system_prompt
                  (add_out st [Prompt "用户"]) Hw) as (evs & text & Hrun).
      rewrite Hrun.
      match goal with
      | |- context [interactive_loop _ _ _ _ ?st1] =>
          destruct (IH st1) as [evs' Hrest]
      end.
      rewrite Hrest. cbn [stdout requests fs add_out].
      rewrite <- !app_assoc. eexists. reflexivity.
    + destruct (IH (add_out st [Prompt "用户"])) as [evs' Hrest].
      rewrite Hrest. cbn [stdout requests fs add_out].
      rewrite <- !app_assoc. eexists. reflexivity.
Qed.

(** C8, as the code has it: in the interactive mode, with a client that
    can be built and a service that answers, the first line that matches
    an exit keyword, whatever its case, ends [cli] with no request for it,
    and each line before it that is not empty made one request, in order,
    with that line as the prompt; an empty line makes no request and is
    asked for again; the lines after the exit keyword are not read. *)
Theorem interactive_dispatch
    (w : world) (text path prompt start : option string) (client : AIClient)
    (before : list string) (line : string) (rest : list string)
    (st : state) :
  truthy text = false ->
  truthy path = false ->
  AIClient_init w None None None st = (st, Return client) ->
  serves w ->
  Forall (fun l => ~ is_exit l) before ->
  is_exit line ->
  exists st',
    cli w text false path prompt start (before ++ line :: rest) st
    = (st', Return tt)
    /\ requests st'
       = requests st
         ++ map (fun l =>
                   text_request client l
                     (or_default prompt "你是一个智能AI助手。"))
             (List.filter (fun l => str_truthy l) before).
Proof.
  intros Htext Hpath Hinit Hw Hbefore Hline.
  unfold cli, cli_body. rewrite Htext, Hpath. cbn [orb].
  unfold bind at 1. rewrite out_run.
  unfold bind at 1. rewrite create_client_run.
  assert (Hinit' : forall s, AIClient_init w None None None s = (s, Return client)).
  { intros s. revert Hinit. unfold AIClient_init.
    destruct (resolve_config w None None None) as [[k u] m].
    destruct (negb (truthy k)); [discriminate|].
    destruct (negb (truthy u)); [discriminate|].
    destruct (negb (truthy m)); [discriminate|].
    unfold ret. congruence. }
  rewrite Hinit'.
  match goal with
  | |- context [interactive_loop _ _ ?sp _ ?st1] =>
      destruct (interactive_loop_run w client sp before line rest
                  Hw Hbefore Hline st1) as [evs Hloop]
  end.
  rewrite Hloop. eexists. split; [reflexivity|]. reflexivity.
Qed.

Lemma interactive_dispatch_witness :
  exists st',
    cli (sample_world (stream_of hello_chunks)) None false None None None
      (["hi"; EmptyString; "again"] ++ "EXIT" :: ["later"]) (initial ∅)
    = (st', Return tt)
    /\ requests st'
       = [text_request sample_client "hi" "你是一个智能AI助手。";
          text_request sample_client "again" "你是一个智能AI助手。"].
Proof.
  apply (interactive_dispatch (sample_world (stream_of hello_chunks))
           None None None None sample_client ["hi"; EmptyString; "again"] "EXIT"
           ["later"] (initial ∅)).
  - reflexivity.
  - reflexivity.
  - reflexivity.
  - intros n params. exists hello_chunks. reflexivity.
  - repeat constructor; intros [H|H]; discriminate H.
  - left. reflexivity.
Defined.

(** C8 as stated fails on an empty line: it comes before the exit
    keyword and no request is made for it. *)
Lemma empty_line_makes_no_request :
  let run :=
    cli (sample_world (stream_of hello_chunks)) None false None None None
      [EmptyString; "exit"] (initial ∅) in
  run.2 = Return tt
  /\ requests run.1 = []
  /\ requests run.1
     <> map (fun l => text_request sample_client l "你是一个智能AI助手。")
          [EmptyString].
Proof.
  intros run. split; [reflexivity|]. split; [reflexivity|].
  vm_compute. discriminate.
Qed.

(** ** The command-line boundary *)

Lemma cli_handler_caught (e : exn) :
  caught e = true ->
  cli_handler e = Some (out (Echo (caught_message e))).
Proof.
  unfold caught, cli_handler, caught_message.
  destruct (is_FileNotFoundError e); [reflexivity|].
  destruct (is_ValueError e); [reflexivity|].
  destruct (is_OSError e); [reflexivity|discriminate].
Qed.

Lemma cli_handler_other (e : exn) : caught e = false -> cli_handler e = None.
Proof.
  unfold caught, cli_handler.
  destruct (is_FileNotFoundError e); [discriminate|].
  destruct (is_ValueError e); [discriminate|].
  destruct (is_OSError e); [discriminate|reflexivity].
Qed.

(** A failure of the iterator in the text mode leaves [process_stream],
    [text_completion] and the body of [cli] as the same exception. *)
Lemma stream_failure_reaches_cli w (text prompt start : option string)
    (inputs : list string) client (chunks : list ChatCompletionChunk) e st :
  truthy text = true ->
  AIClient_init w None None None st = (st, Return client) ->
  create_stream w (length (requests st))
    (text_request client (default EmptyString text)
       (or_default prompt "你是一个智能AI助手。"))
  = inr (broken_stream chunks e) ->
  exists st',
    cli_body w text false None prompt start inputs st = (st', Raise e)
    /\ emitted (stdout st') = emitted (stdout st) ++ nonempty_deltas chunks.
Proof.
  intros Htext Hinit Hstream.
  unfold cli_body. rewrite Htext. cbn [truthy orb].
  unfold bind at 1. rewrite create_client_run, Hinit.
  unfold bind at 1. unfold text_completion, bind at 1, chat_completion, send.
  cbn [req_stream andb]. unfold text_request in Hstream. rewrite Hstream.
  rewrite process_stream_broken. eexists. split; [reflexivity|].
  cbn [stdout add_out]. rewrite !emitted_app, emitted_prints.
  destruct (is_Exception e); cbn; by rewrite ?app_nil_r.
Qed.

(** C9: an exception that leaves the body of [cli], from whichever mode
    and also from the middle of a stream, and that is a
    [FileNotFoundError], a [ValueError] or an [OSError], is caught: [cli]
    writes one line that ends with the text of the exception and returns,
    so the process ends with status 0. *)
Theorem cli_catches
    (w : world) (text : option string) (image : bool)
    (path prompt start : option string) (inputs : list string)
    (st st' : state) (e : exn) :
  cli_body w text image path prompt start inputs st = (st', Raise e) ->
  caught e = true ->
  cli w text image path prompt start inputs st
  = (add_out st' [Echo (caught_message e)], Return tt)
  /\ exit_status (cli w text image path prompt start inputs st).2 = 0%Z
  /\ exists label, caught_message e = (label ++ exn_str e)%string.
Proof.
  intros Hbody Hcaught. unfold cli. rewrite Hbody.
  rewrite (cli_handler_caught e Hcaught), out_run.
  split; [reflexivity|]. split; [reflexivity|].
  unfold caught_message. eexists. reflexivity.
Qed.

Lemma cli_catches_witness :
  let w := sample_world (broken_stream [text_chunk "He"] connection_reset) in
  cli w (Some "hello") false None None None [] (initial ∅)
  = ({| stdout :=
          [PrintContent "He"; PrintStreamError connection_reset;
           Echo "操作错误: [Errno 104] Connection reset by peer"];
        requests := [text_request sample_client "hello" "你是一个智能AI助手。"];
        fs := ∅ |},
     Return tt).
Proof.
  intros w.
  exact (proj1 (cli_catches w (Some "hello") false None None None []
                  (initial ∅) _ connection_reset eq_refl eq_refl)).
Defined.

(** The other exceptions leave [cli] as they are, among them the errors
    of the service that are not [OSError]s, and [Abort] at the end of the
    input. *)
Remark cli_lets_others_through
    (w : world) (text : option string) (image : bool)
    (path prompt start : option string) (inputs : list string)
    (st st' : state) (e : exn) :
  cli_body w text image path prompt start inputs st = (st', Raise e) ->
  caught e = false ->
  cli w text image path prompt start inputs st = (st', Raise e).
Proof.
  intros Hbody Hother. unfold cli.
  by rewrite Hbody, (cli_handler_other e Hother).
Qed.

(** A missing configuration in the text mode: printed by
    [create_client], then reported by [cli], which returns. *)
Example missing_configuration_reported :
  cli bare_world (Some "hello") false None None None [] (initial ∅)
  = ({| stdout :=
          [PrintCreateError (config_error ApiKey);
           Echo ("值错误: " ++ msg_api_key)%string];
        requests := [];
        fs := ∅ |},
     Return tt).
Proof. reflexivity. Qed.

(** * Further properties *)

(** ** The stream aggregator, continued *)

(** With [print_output] unset [process_stream] leaves the state as it
    found it: nothing is written, whether the iterator ends or raises. *)
Theorem process_stream_silent (s : stream) (st : state) :
  (process_stream false s st).1 = st.
Proof.
  rewrite process_stream_run.
  destruct (failure s) as [e|]; cbn [fst prints usage_summary andb app].
  - apply add_out_nil.
  - destruct (last_usage (yielded s)); apply add_out_nil.
Qed.

Lemma terminal_app (xs ys : list event) :
  terminal (xs ++ ys) = (terminal xs ++ terminal ys)%string.
Proof. unfold terminal. rewrite map_app. apply (join_app (map render xs)). Qed.

Lemma terminal_prints (chunks : list ChatCompletionChunk) :
  terminal (prints true chunks) = join (nonempty_deltas chunks).
Proof.
  unfold prints, terminal, join.
  induction (nonempty_deltas chunks) as [|d ds IH]; [reflexivity|].
  change (join (render (PrintContent d) :: map render (PrintContent <$> ds))
          = join (d :: ds)).
  rewrite !join_cons. cbn [render]. f_equal. exact IH.
Qed.

(** With [print_output] set and an iterator that ends, the terminal
    receives the returned text, character for character, and after it the
    usage line when a payload was seen. *)
Theorem terminal_shows_returned_text
    (chunks : list ChatCompletionChunk) (st : state) :
  exists text,
    (process_stream true (stream_of chunks) st).2 = Return text
    /\ terminal (stdout (process_stream true (stream_of chunks) st).1)
       = (terminal (stdout st) ++ text
          ++ match last_usage chunks with
             | Some u => render (PrintUsage u)
             | None => EmptyString
             end)%string.
Proof.
  rewrite process_stream_ok. eexists. split; [reflexivity|].
  cbn [fst stdout add_out]. rewrite !terminal_app, terminal_prints.
  do 2 f_equal. destruct (last_usage chunks) as [u|]; [|reflexivity].
  reflexivity.
Qed.

(** The text of two chunk sequences, one after the other, is the text of
    the first followed by the text of the second: where the service cuts
    the answer into chunks does not matter. *)
Theorem process_stream_app
    (p q r : bool) (xs ys : list ChatCompletionChunk) (st1 st2 st3 : state) :
  exists a b,
    (process_stream p (stream_of xs) st1).2 = Return a
    /\ (process_stream q (stream_of ys) st2).2 = Return b
    /\ (process_stream r (stream_of (xs ++ ys)) st3).2 = Return (a ++ b)%string.
Proof.
  rewrite !process_stream_ok. eexists _, _.
  split; [reflexivity|]. split; [reflexivity|]. cbn [snd].
  by rewrite nonempty_deltas_app, join_app.
Qed.

(** One delta sent in two pieces gives the same text as sent whole. *)
Theorem split_delta_same_text
    (p : bool) (a b : string) (before after : list ChatCompletionChunk)
    (st : state) :
  (process_stream p
     (stream_of (before ++ [text_chunk a; text_chunk b] ++ after)) st).2
  = (process_stream p
       (stream_of (before ++ [text_chunk (a ++ b)%string] ++ after)) st).2.
Proof.
  rewrite !process_stream_ok. cbn [snd]. f_equal.
  unfold nonempty_deltas. rewrite !join_filter_truthy.
  unfold deltas. rewrite !omap_app, !join_app.
  cbn [omap list_omap text_delta text_chunk choices delta content].
  rewrite !join_cons. change (join []) with EmptyString.
  by rewrite !str_app_nil_r.
Qed.

(** ** Client construction, continued *)

Lemma AIClient_init_state w (a b c : option string) st :
  AIClient_init w a b c st = (st, (AIClient_init w a b c (initial ∅)).2).
Proof.
  destruct (resolve_config w a b c) as [[k u] m] eqn:Hres.
  by rewrite !(AIClient_init_run w a b c k u m _ Hres).
Qed.

(** When the three arguments are all given, the environment and the .env
    file are not read at all; in particular an api_key given as the empty
    string fails, whatever API_KEY is set to. *)
Theorem all_arguments_given_ignore_environment
    (w w' : world) (a b c : string) (st : state) :
  AIClient_init w (Some a) (Some b) (Some c) st
  = AIClient_init w' (Some a) (Some b) (Some c) st
  /\ AIClient_init w (Some EmptyString) (Some b) (Some c) st
     = (st, Raise (config_error ApiKey)).
Proof. split; reflexivity. Qed.

(** An argument that is a non-empty string is the value used, whatever
    the environment holds; when an argument is left out, each argument
    that is left out or empty takes the value of its variable, from the
    environment first and from the .env file otherwise. *)
Theorem argument_precedence
    (w : world) (a b c k u m : option string) :
  resolve_config w a b c = (k, u, m) ->
  (truthy a = true -> k = a)
  /\ (truthy b = true -> u = b)
  /\ (truthy c = true -> m = c)
  /\ (a = None \/ b = None \/ c = None ->
      (truthy a = false -> k = (environ w ∪ dotenv w) !! "API_KEY")
      /\ (truthy b = false -> u = (environ w ∪ dotenv w) !! "BASE_URL")
      /\ (truthy c = false -> m = (environ w ∪ dotenv w) !! "MODEL")).
Proof.
  unfold resolve_config, load_dotenv, py_or. intros Hres.
  destruct (bool_decide (a = None) || bool_decide (b = None)
            || bool_decide (c = None)) eqn:Hguard.
  - injection Hres as <- <- <-.
    repeat split; intros; by
      repeat match goal with H : truthy _ = _ |- _ => rewrite H end.
  - injection Hres as <- <- <-.
    split; [done|]. split; [done|]. split; [done|].
    intros Hnone. exfalso.
    apply orb_false_elim in Hguard as [Hab Hc].
    apply orb_false_elim in Hab as [Ha Hb].
    apply bool_decide_eq_false in Ha, Hb, Hc. tauto.
Qed.

Lemma argument_precedence_witness :
  let w := sample_world (stream_of []) in
  exists k u m,
    resolve_config w (Some "sk-mine") None (Some EmptyString) = (k, u, m)
    /\ k = Some "sk-mine"
    /\ u = (environ w ∪ dotenv w) !! "BASE_URL"
    /\ m = (environ w ∪ dotenv w) !! "MODEL".
Proof.
  intros w. eexists _, _, _. split; [reflexivity|].
  destruct (argument_precedence w (Some "sk-mine") None (Some EmptyString)
              _ _ _ eq_refl) as (Hk & _ & _ & Hnone).
  destruct (Hnone (or_intror (or_introl eq_refl))) as (_ & Hu & Hm).
  split; [exact (Hk eq_refl)|].
  split; [exact (Hu eq_refl)|exact (Hm eq_refl)].
Defined.

Lemma AIClient_init_raises w (a b c : option string) st st' e :
  AIClient_init w a b c st = (st', Raise e) -> is_ValueError e = true.
Proof.
  destruct (resolve_config w a b c) as [[k u] m] eqn:Hres.
  rewrite (AIClient_init_run w a b c k u m st Hres).
  destruct (first_missing k u m) as [f|]; [|discriminate].
  by intros [= <- <-].
Qed.

(** [create_client] ends as [__init__] does, with the same client or the
    same exception; it prints only when it fails, one line, and leaves
    requests and files alone. *)
Theorem create_client_same_outcome
    (w : world) (a b c : option string) (st : state) :
  (create_client w a b c st).2 = (AIClient_init w a b c st).2
  /\ (create_client w a b c st).1
     = match (AIClient_init w a b c st).2 with
       | Return _ => st
       | Raise e => add_out st [PrintCreateError e]
       end
  /\ match (AIClient_init w a b c st).2 with
     | Return client =>
         str_truthy (api_key client) = true
         /\ str_truthy (base_url client) = true
         /\ str_truthy (model client) = true
     | Raise e => is_ValueError e = true
     end.
Proof.
  rewrite create_client_run.
  destruct (resolve_config w a b c) as [[k u] m] eqn:Hres.
  rewrite (AIClient_init_run w a b c k u m st Hres).
  unfold first_missing.
  destruct k as [k|], u as [u|], m as [m|]; cbn [truthy negb];
    try (destruct (str_truthy k) eqn:Hk); cbn [negb];
    try (destruct (str_truthy u) eqn:Hu); cbn [negb];
    try (destruct (str_truthy m) eqn:Hm); cbn [negb];
    repeat split; try reflexivity; assumption.
Qed.

(** ** Images *)

Lemma data_uri_prefix (b : string) :
  startswith ("data:image/png;base64," ++ b)%string "data:image" = true.
Proof. reflexivity. Qed.

Lemma image_url_returns w (image_path url : string) (st st' : state) :
  image_url w image_path st = (st', Return url) ->
  st' = st /\ startswith url "data:image" = true.
Proof.
  unfold image_url.
  destruct (startswith image_path "data:image") eqn:Hpre.
  - unfold ret. by intros [= <- <-].
  - unfold bind, open_read.
    destruct (fs st !! image_path) as [[data|]|]; [|discriminate..].
    unfold ret. intros [= <- <-]. split; [reflexivity|apply data_uri_prefix].
Qed.

(** Whenever [image_url] returns, what it returns is a data URI, the
    state is untouched, and handing the reference back to [image_url]
    returns it unchanged: no file is read for it and it is not encoded a
    second time. *)
Theorem image_url_is_data_uri
    (w : world) (image_path url : string) (st st' : state) :
  image_url w image_path st = (st', Return url) ->
  st' = st
  /\ startswith url "data:image" = true
  /\ forall st2, image_url w url st2 = (st2, Return url).
Proof.
  intros Hurl. destruct (image_url_returns _ _ _ _ _ Hurl) as [-> Hdata].
  split; [reflexivity|]. split; [exact Hdata|].
  intros st2. unfold image_url. by rewrite Hdata.
Qed.

Lemma image_url_is_data_uri_witness :
  image_url (sample_world (stream_of [])) "data:image/png;base64,iVBORw=="
    (initial ∅)
  = (initial ∅, Return "data:image/png;base64,iVBORw==").
Proof.
  exact (proj2 (proj2 (image_url_is_data_uri (sample_world (stream_of []))
                         "shot.png" "data:image/png;base64,iVBORw=="
                         (initial sample_files) (initial sample_files)
                         eq_refl))
           (initial ∅)).
Defined.

(** [encode_image] and the image reference agree on what can be read:
    where [encode_image] returns the base64 text of a file, [image_url]
    returns that text behind the PNG data-URI header, and where
    [encode_image] raises, [image_url] raises as well, though not
    always the same exception: [encode_image] reports a missing path
    itself, [image_url] passes on what [open] raises.  Neither changes
    the state. *)
Theorem encode_image_agrees_with_image_url
    (w : world) (image_path : string) (st : state) :
  startswith image_path "data:image" = false ->
  (encode_image w image_path st).1 = st
  /\ match (encode_image w image_path st).2 with
     | Return b64 =>
         image_url w image_path st
         = (st, Return ("data:image/png;base64," ++ b64)%string)
     | Raise _ => exists e', image_url w image_path st = (st, Raise e')
     end.
Proof.
  intros Hpre. unfold encode_image, image_url, bind, path_exists, open_read.
  rewrite Hpre. cbv beta.
  destruct (fs st !! image_path) as [[data|]|] eqn:Hfs; cbn; rewrite ?Hfs; cbn.
  - split; reflexivity.
  - split; [reflexivity|]. eexists. reflexivity.
  - split; [reflexivity|]. eexists. reflexivity.
Qed.

Lemma encode_image_agrees_with_image_url_witness :
  image_url nested_world "shot.png" (initial sample_files)
  = (initial sample_files, Return "data:image/png;base64,iVBORw==")
  /\ exists e',
       image_url nested_world "shot.png/x" (initial sample_files)
       = (initial sample_files, Raise e').
Proof.
  split.
  - exact (proj2 (encode_image_agrees_with_image_url nested_world "shot.png"
                    (initial sample_files) eq_refl)).
  - exact (proj2 (encode_image_agrees_with_image_url nested_world
                    "shot.png/x" (initial sample_files) eq_refl)).
Defined.

(** Below a regular file the two do not raise the same exception. *)
Example encode_image_reports_missing_itself :
  (encode_image nested_world "shot.png/x" (initial sample_files)).2
  = Raise (Exn FileNotFoundError "图片文件不存在: shot.png/x")
  /\ (image_url nested_world "shot.png/x" (initial sample_files)).2
     = Raise (Exn NotADirectoryError
                "[Errno 20] Not a directory: 'shot.png/x'").
Proof. split; reflexivity. Qed.

(** [encode_image] raises [FileNotFoundError] exactly for the paths at
    which nothing exists, and returns exactly for regular files. *)
Theorem encode_image_outcomes (w : world) (image_path : string) (st : state) :
  ((exists msg,
      (encode_image w image_path st).2 = Raise (Exn FileNotFoundError msg))
   <-> fs st !! image_path = None)
  /\ ((exists b64, (encode_image w image_path st).2 = Return b64)
      <-> exists data, fs st !! image_path = Some (File data)).
Proof.
  unfold encode_image, bind, path_exists, open_read. cbv beta.
  destruct (fs st !! image_path) as [[data|]|] eqn:Hfs; cbn; rewrite ?Hfs; cbn;
    split; split;
    try (intros [? ?]; discriminate); try discriminate; eauto.
Qed.



(** A directory in the place of the image makes [save] fail: nothing is
    written and the error is the one of [open] on a directory. *)
Theorem screenshot_onto_directory
    (w : world) (data : list byte) (st : state) :
  screenshot w = inr data ->
  fs st !! "./test.png" = Some Directory ->
  exists e,
    get_screenshot w st = (st, Raise e) /\ exn_cls e = IsADirectoryError.
Proof.
  intros Hshot Hdir. unfold get_screenshot, default_save_path.
  rewrite Hshot, Hdir. eexists. split; reflexivity.
Qed.

(** A capture that fails changes nothing. *)
Theorem screenshot_failure_changes_nothing
    (w : world) (e : exn) (st : state) :
  screenshot w = inl e ->
  get_screenshot w st = (st, Raise e).
Proof. intros Hshot. unfold get_screenshot. by rewrite Hshot. Qed.

(** ** Base64 *)

(** Induction over byte lists three bytes at a time, as [b64encode]
    recurses. *)
Lemma triples_ind (P : list byte -> Prop) :
  P [] ->
  (forall a, P [a]) ->
  (forall a b, P [a; b]) ->
  (forall a b c rest, P rest -> P (a :: b :: c :: rest)) ->
  forall data, P data.
Proof.
  intros H0 H1 H2 H3.
  fix IH 1. intros [|a [|b [|c rest]]].
  - exact H0.
  - apply H1.
  - apply H2.
  - apply H3, IH.
Qed.

(** The text has four characters for every three bytes, the last group
    padded. *)
Theorem b64encode_length (data : list byte) :
  String.length (b64encode data) = 4 * ((length data + 2) / 3).
Proof.
  induction data as [|a|a b|a b c rest IH] using triples_ind;
    try reflexivity.
  change (String.length (b64encode (a :: b :: c :: rest)))
    with (S (S (S (S (String.length (b64encode rest)))))).
  rewrite IH. cbn [length].
  replace (S (S (S (length rest))) + 2) with ((length rest + 2) + 1 * 3) by lia.
  rewrite Nat.div_add by lia. lia.
Qed.

Lemma b64_char_table :
  forallb (fun x =>
    negb (Ascii.eqb (b64_char x) "=")
    && forallb (fun y => implb (Ascii.eqb (b64_char x) (b64_char y)) (N.eqb x y))
         (map N.of_nat (seq 0 64)))
    (map N.of_nat (seq 0 64)) = true.
Proof. vm_compute. reflexivity. Qed.

Lemma in_sextets (x : N) : (x < 64)%N -> In x (map N.of_nat (seq 0 64)).
Proof.
  intros Hx. apply in_map_iff. exists (N.to_nat x).
  split; [lia|]. apply in_seq. lia.
Qed.

Lemma b64_char_not_pad (x : N) : (x < 64)%N -> b64_char x <> "="%char.
Proof.
  intros Hx Heq. pose proof b64_char_table as Htab.
  rewrite forallb_forall in Htab.
  specialize (Htab x (in_sextets x Hx)).
  apply andb_prop in Htab as [Hpad _].
  apply Ascii.eqb_eq in Heq. rewrite Heq in Hpad. discriminate.
Qed.

Lemma b64_char_inj (x y : N) :
  (x < 64)%N -> (y < 64)%N -> b64_char x = b64_char y -> x = y.
Proof.
  intros Hx Hy Heq. pose proof b64_char_table as Htab.
  rewrite forallb_forall in Htab.
  specialize (Htab x (in_sextets x Hx)).
  apply andb_prop in Htab as [_ Hrow].
  rewrite forallb_forall in Hrow.
  specialize (Hrow y (in_sextets y Hy)).
  apply Ascii.eqb_eq in Heq. rewrite Heq in Hrow.
  by apply N.eqb_eq.
Qed.

Lemma byte_to_N_inj (a b : byte) : Byte.to_N a = Byte.to_N b -> a = b.
Proof.
  intros H. pose proof (Byte.of_to_N a) as Ha.
  rewrite H, Byte.of_to_N in Ha. congruence.
Qed.

Lemma byte_lt_256 (a : byte) : (Byte.to_N a < 256)%N.
Proof. pose proof (Byte.to_N_bounded a). lia. Qed.

Lemma sextets_decompose (x : N) :
  (x = x / 262144 * 262144 + (x / 4096) mod 64 * 4096
       + (x / 64) mod 64 * 64 + x mod 64)%N.
Proof.
  assert (H4096 : (x / 4096 = x / 64 / 64)%N)
    by (rewrite N.Div0.div_div; reflexivity).
  assert (H262144 : (x / 262144 = x / 64 / 64 / 64)%N)
    by (rewrite !N.Div0.div_div; reflexivity).
  rewrite H4096, H262144.
  pose proof (N.div_mod x 64).
  pose proof (N.div_mod (x / 64) 64).
  pose proof (N.div_mod (x / 64 / 64) 64).
  lia.
Qed.

Lemma sextets_same (x x' : N) :
  (x / 262144 = x' / 262144 ->
   (x / 4096) mod 64 = (x' / 4096) mod 64 ->
   (x / 64) mod 64 = (x' / 64) mod 64 ->
   x mod 64 = x' mod 64 ->
   x = x')%N.
Proof.
  intros H1 H2 H3 H4.
  rewrite (sextets_decompose x), (sextets_decompose x').
  by rewrite H1, H2, H3, H4.
Qed.


Lemma low_sextet_zero (k : N) : ((k * 64) mod 64 = 0)%N.
Proof. apply N.Div0.mod_mul. Qed.

Lemma mid_sextet_zero (k : N) : (((k * 4096) / 64) mod 64 = 0)%N.
Proof.
  replace (k * 4096)%N with (k * 64 * 64)%N by lia.
  rewrite N.div_mul by lia. apply low_sextet_zero.
Qed.

Lemma group1_same (a a' : N) :
  (let x := a * 65536 in
   let x' := a' * 65536 in
   x / 262144 = x' / 262144 ->
   (x / 4096) mod 64 = (x' / 4096) mod 64 ->
   a = a')%N.
Proof.
  intros x x' H1 H2.
  assert (Hx : x = x').
  { apply sextets_same; try assumption; subst x x'.
    - replace (a * 65536)%N with (a * 16 * 4096)%N by lia.
      replace (a' * 65536)%N with (a' * 16 * 4096)%N by lia.
      by rewrite !mid_sextet_zero.
    - replace (a * 65536)%N with (a * 1024 * 64)%N by lia.
      replace (a' * 65536)%N with (a' * 1024 * 64)%N by lia.
      by rewrite !low_sextet_zero. }
  subst x x'. lia.
Qed.

Lemma group2_same (a b a' b' : N) :
  (b < 256 -> b' < 256 ->
   let x := a * 65536 + b * 256 in
   let x' := a' * 65536 + b' * 256 in
   x / 262144 = x' / 262144 ->
   (x / 4096) mod 64 = (x' / 4096) mod 64 ->
   (x / 64) mod 64 = (x' / 64) mod 64 ->
   a = a' /\ b = b')%N.
Proof.
  intros Hb Hb' x x' H1 H2 H3.
  assert (Hx : x = x').
  { apply sextets_same; try assumption; subst x x'.
    replace (a * 65536 + b * 256)%N with ((a * 1024 + b * 4) * 64)%N by lia.
    replace (a' * 65536 + b' * 256)%N with ((a' * 1024 + b' * 4) * 64)%N by lia.
    by rewrite !low_sextet_zero. }
  subst x x'. lia.
Qed.

Ltac sextet_bound :=
  first [ apply N.mod_lt; lia | apply N.Div0.div_lt_upper_bound; lia ].

(** Splits an equation between two encoded groups into equations between
    sextets, or refutes it when a character meets the padding. *)
Ltac split_groups :=
  repeat match goal with
    | H : String _ _ = String _ _ |- _ => injection H as ? ?
    | H : b64_char ?x = "="%char |- _ =>
        exfalso; apply (b64_char_not_pad x); [sextet_bound|exact H]
    | H : "="%char = b64_char ?x |- _ =>
        exfalso; apply (b64_char_not_pad x); [sextet_bound|symmetry; exact H]
    | H : b64_char _ = b64_char _ |- _ =>
        apply b64_char_inj in H; [|sextet_bound..]
    end.

(** Files with different bytes never get the same base64 text. *)
Theorem b64encode_inj (d1 d2 : list byte) :
  b64encode d1 = b64encode d2 -> d1 = d2.
Proof.
  revert d2.
  induction d1 as [|a|a b|a b c rest IH] using triples_ind;
    intros [|a' [|b' [|c' rest']]] Heq; try reflexivity;
    cbn [b64encode] in Heq; try discriminate Heq.
  all: pose proof (byte_lt_256 a) as Ba; pose proof (byte_lt_256 a') as Ba'.
  all: try pose proof (byte_lt_256 b) as Bb.
  all: try pose proof (byte_lt_256 b') as Bb'.
  all: try pose proof (byte_lt_256 c) as Bc.
  all: try pose proof (byte_lt_256 c') as Bc'.
  all: split_groups.
  - (* one byte each *)
    f_equal. apply byte_to_N_inj. by apply group1_same.
  - (* two bytes each *)
    destruct (group2_same (Byte.to_N a) (Byte.to_N b)
                (Byte.to_N a') (Byte.to_N b')) as [Ea Eb]; try assumption.
    apply byte_to_N_inj in Ea, Eb. by subst.
  - (* a full group each *)
    assert (Hgroup : (Byte.to_N a * 65536 + Byte.to_N b * 256 + Byte.to_N c
                      = Byte.to_N a' * 65536 + Byte.to_N b' * 256
                        + Byte.to_N c')%N)
      by (by apply sextets_same).
    assert (Ea : a = a') by (apply byte_to_N_inj; lia).
    assert (Eb : b = b') by (apply byte_to_N_inj; lia).
    assert (Ec : c = c') by (apply byte_to_N_inj; lia).
    subst. do 3 f_equal. by apply IH.
Qed.

(** Two files that get the same image reference hold the same bytes, in
    whichever processes and at whichever paths they are read. *)
Theorem same_reference_same_bytes
    (w w' : world) (p p' url : string) (data data' : list byte)
    (st st' : state) :
  startswith p "data:image" = false ->
  startswith p' "data:image" = false ->
  fs st !! p = Some (File data) ->
  fs st' !! p' = Some (File data') ->
  image_url w p st = (st, Return url) ->
  image_url w' p' st' = (st', Return url) ->
  data = data'.
Proof.
  intros Hp Hp' Hf Hf'. unfold image_url, bind, open_read.
  rewrite Hp, Hp', Hf, Hf'. unfold ret. intros [= <-] [= Hurl].
  symmetry. apply b64encode_inj. exact Hurl.
Qed.

Lemma same_reference_same_bytes_witness :
  let w := sample_world (stream_of []) in
  (exists data data',
     album !! "shot.png" = Some (File data)
     /\ album !! "copy.png" = Some (File data')
     /\ data = data')
  /\ (image_url w "shot.png" (initial album)).2
     <> (image_url w "other.png" (initial album)).2.
Proof.
  intros w. split.
  - exists png_bytes, png_bytes. split; [reflexivity|]. split; [reflexivity|].
    exact (same_reference_same_bytes w w "shot.png" "copy.png"
             "data:image/png;base64,iVBORw==" png_bytes png_bytes
             (initial album) (initial album)
             eq_refl eq_refl eq_refl eq_refl eq_refl eq_refl).
  - intros Hsame.
    assert (Hother : image_url w "other.png" (initial album)
                     = (initial album, Return "data:image/png;base64,iVBORw=="))
      by (rewrite (surjective_pairing (image_url w "other.png" (initial album)));
          rewrite <- Hsame; reflexivity).
    pose proof (same_reference_same_bytes w w "shot.png" "other.png"
                  "data:image/png;base64,iVBORw==" png_bytes other_bytes
                  (initial album) (initial album)
                  eq_refl eq_refl eq_refl eq_refl eq_refl Hother) as Hbytes.
    discriminate Hbytes.
Defined.

(** ** Requests made by the completion methods *)

Lemma AIClient_init_any_state w (a b c : option string) client st :
  AIClient_init w a b c st = (st, Return client) ->
  forall s, AIClient_init w a b c s = (s, Return client).
Proof.
  intros Hinit s. rewrite AIClient_init_state in Hinit.
  rewrite AIClient_init_state. congruence.
Qed.

(** A streamed text exchange makes exactly one call, whatever the
    service answers, and leaves the files alone. *)
Lemma text_completion_effects w self prompt system_prompt p st :
  requests (text_completion w self prompt system_prompt true p st).1
  = requests st ++ [text_request self prompt system_prompt]
  /\ fs (text_completion w self prompt system_prompt true p st).1 = fs st.
Proof.
  unfold text_completion, bind, chat_completion. cbn [andb].
  match goal with
  | |- context [send w ?params st] =>
      pose proof (send_requests w params st) as [Hreq Hfs];
      destruct (send w params st) as [st' [c|e]]
  end; cbn [fst] in Hreq, Hfs.
  - rewrite after_completion_requests.
    split; [exact Hreq|].
    destruct c as [s|r].
    + by rewrite (proj2 (process_stream_requests p s st')).
    + unfold bind. by rewrite when_run.
  - split; assumption.
Qed.


Lemma image_url_raises w image_path st st1 e :
  image_url w image_path st = (st1, Raise e) -> st1 = st.
Proof.
  unfold image_url.
  destruct (startswith image_path "data:image"); [discriminate|].
  unfold bind, open_read.
  by destruct (fs st !! image_path) as [[data|]|]; intros [= <- <-].
Qed.

(** The [except] clauses of [cli] add output only. *)
Lemma cli_keeps_body_effects w text image path prompt start inputs st :
  requests (cli w text image path prompt start inputs st).1
  = requests (cli_body w text image path prompt start inputs st).1
  /\ fs (cli w text image path prompt start inputs st).1
     = fs (cli_body w text image path prompt start inputs st).1.
Proof.
  unfold cli.
  destruct (cli_body w text image path prompt start inputs st)
    as [st' [r|e]]; [done|].
  destruct (caught e) eqn:Hc.
  - by rewrite (cli_handler_caught e Hc), out_run.
  - by rewrite (cli_handler_other e Hc).
Qed.

(** ** The interactive loop, continued *)

Lemma not_exit_empty (l : string) : str_truthy l = false -> ~ is_exit l.
Proof. intros Hl He. apply is_exit_nonempty in He. congruence. Qed.

Lemma interactive_loop_prefix w client system_prompt (inputs : list string) :
  forall st, exists k,
    requests (interactive_loop w client system_prompt inputs st).1
    = requests st
      ++ map (fun l => text_request client l system_prompt)
           (List.filter str_truthy (take k inputs))
    /\ Forall (fun l => ~ is_exit l) (take k inputs)
    /\ fs (interactive_loop w client system_prompt inputs st).1 = fs st.
Proof.
  induction inputs as [|l inputs IH]; intros st.
  - exists 0. cbn. by rewrite app_nil_r.
  - destruct (interactive_loop w client system_prompt (l :: inputs) st)
      as [st' r] eqn:Hrun.
    cbn [interactive_loop] in Hrun. unfold bind at 1 in Hrun.
    rewrite out_run in Hrun. cbn [fst].
    destruct (str_truthy l) eqn:Hl'; cbn [negb] in Hrun.
    + destruct (str_in (lower l) exit_keywords) eqn:Hexit.
      { injection Hrun as <- <-. exists 0. cbn. by rewrite app_nil_r. }
      assert (Hl : ~ is_exit l).
      { intros H. apply str_in_exit in H. congruence. }
      unfold bind at 1 in Hrun.
      pose proof (text_completion_effects w client l system_prompt true
                    (add_out st [Prompt "用户"])) as [Hreq Hfs].
      destruct (text_completion w client l system_prompt true true
                  (add_out st [Prompt "用户"])) as [st1 [text|e]];
        cbn [fst requests fs add_out] in Hreq, Hfs.
      * destruct (IH st1) as (k & Hk & Hall & Hfs1). rewrite Hrun in Hk, Hfs1.
        cbn [fst] in Hk, Hfs1. exists (S k).
        cbn [firstn List.filter]. rewrite Hl'. cbn [map]. split; [|split].
        -- rewrite Hk, Hreq. by rewrite <- app_assoc.
        -- by constructor.
        -- by rewrite Hfs1, Hfs.
      * injection Hrun as <- <-. exists 1.
        cbn [firstn List.filter]. rewrite Hl'. cbn [map]. split; [|split].
        -- by rewrite Hreq.
        -- by repeat constructor.
        -- by rewrite Hfs.
    + destruct (IH (add_out st [Prompt "用户"])) as (k & Hk & Hall & Hfs1).
      rewrite Hrun in Hk, Hfs1. cbn [fst requests fs add_out] in Hk, Hfs1.
      exists (S k). cbn [firstn List.filter]. rewrite Hl'. split; [|split].
      * exact Hk.
      * constructor; [by apply not_exit_empty|exact Hall].
      * exact Hfs1.
Qed.



(** A refused exchange ends the loop: the later lines are not sent. *)
Example refused_exchange_ends_loop :
  cli (refusing_world service_down) None false None None None
    [EmptyString; "first"; "second"; "exit"] (initial ∅)
  = ({| stdout := [Echo default_welcome; Prompt "用户"; Prompt "用户"];
        requests := [text_request sample_client "first" "你是一个智能AI助手。"];
        fs := ∅ |},
     Raise service_down).
Proof. reflexivity. Qed.

Lemma interactive_loop_end_of_input w client system_prompt
    (inputs : list string) :
  serves w ->
  Forall (fun l => ~ is_exit l) inputs ->
  forall st, exists evs,
    interactive_loop w client system_prompt inputs st
    = ({| stdout := stdout st ++ evs;
          requests :=
            requests st
            ++ map (fun l => text_request client l system_prompt)
                 (List.filter str_truthy inputs);
          fs := fs st |},
       Raise (Exn Abort EmptyString)).
Proof.
  intros Hw Hall. induction Hall as [|l inputs Hl _ IH]; intros st.
  - cbn [interactive_loop List.filter map]. unfold bind. rewrite out_run.
    unfold raise, add_out. cbn [stdout requests fs]. rewrite app_nil_r.
    eexists. reflexivity.
  - cbn [interactive_loop List.filter]. unfold bind at 1. rewrite out_run.
    destruct (str_truthy l) eqn:Hl'; cbn [negb map].
    + destruct (str_in (lower l) exit_keywords) eqn:Hexit.
      { apply str_in_exit in Hexit. contradiction. }
      unfold bind at 1.
      destruct (text_completion_served w client l system_prompt
                  (add_out st [Prompt "用户"]) Hw) as (evs & text & Hrun).
      rewrite Hrun.
      match goal with
      | |- context [interactive_loop _ _ _ _ ?st1] =>
          destruct (IH st1) as [evs' Hrest]
      end.
      rewrite Hrest. cbn [stdout requests fs add_out].
      rewrite <- !app_assoc. eexists. reflexivity.
    + destruct (IH (add_out st [Prompt "用户"])) as [evs' Hrest].
      rewrite Hrest. cbn [stdout requests fs add_out].
      rewrite <- !app_assoc. eexists. reflexivity.
Qed.

(** When the input ends before any exit keyword, with a service that
    answers, every line that is not empty has been sent once, in order,
    and [cli] is left by [Abort], which no [except] clause catches: the
    process does not end with status 0. *)
Theorem interactive_end_of_input
    (w : world) (text path prompt start : option string) (client : AIClient)
    (inputs : list string) (st : state) :
  truthy text = false ->
  truthy path = false ->
  AIClient_init w None None None st = (st, Return client) ->
  serves w ->
  Forall (fun l => ~ is_exit l) inputs ->
  exists st',
    cli w text false path prompt start inputs st
    = (st', Raise (Exn Abort EmptyString))
    /\ requests st'
       = requests st
         ++ map (fun l =>
                   text_request client l
                     (or_default prompt "你是一个智能AI助手。"))
             (List.filter (fun l => str_truthy l) inputs)
    /\ exit_status (cli w text false path prompt start inputs st).2 = 1%Z.
Proof.
  intros Htext Hpath Hinit Hw Hall.
  assert (Hrun : exists st',
             cli w text false path prompt start inputs st
             = (st', Raise (Exn Abort EmptyString))
             /\ requests st'
                = requests st
                  ++ map (fun l =>
                            text_request client l
                              (or_default prompt "你是一个智能AI助手。"))
                      (List.filter (fun l => str_truthy l) inputs)).
  { unfold cli, cli_body. rewrite Htext, Hpath. cbn [orb].
    unfold bind at 1. rewrite out_run.
    unfold bind at 1. rewrite create_client_run.
    rewrite (AIClient_init_any_state _ _ _ _ _ _ Hinit).
    match goal with
    | |- context [interactive_loop _ _ ?sp _ ?st1] =>
        destruct (interactive_loop_end_of_input w client sp inputs Hw Hall st1)
          as [evs Hloop]
    end.
    rewrite Hloop. cbn. eexists. split; reflexivity. }
  destruct Hrun as (st' & Hrun & Hreq). rewrite Hrun.
  exists st'. split; [reflexivity|]. split; [exact Hreq|reflexivity].
Qed.

Lemma interactive_end_of_input_witness :
  exists st',
    cli (sample_world (stream_of hello_chunks)) None false None None None
      ["hi"; EmptyString] (initial ∅)
    = (st', Raise (Exn Abort EmptyString))
    /\ requests st'
       = [] ++ map (fun l => text_request sample_client l "你是一个智能AI助手。")
                 (List.filter (fun l => str_truthy l) ["hi"; EmptyString])
    /\ exit_status
         (cli (sample_world (stream_of hello_chunks)) None false None None
            None ["hi"; EmptyString] (initial ∅)).2 = 1%Z.
Proof.
  apply (interactive_end_of_input (sample_world (stream_of hello_chunks))
           None None None None sample_client ["hi"; EmptyString] (initial ∅)).
  - reflexivity.
  - reflexivity.
  - reflexivity.
  - intros n params. exists hello_chunks. reflexivity.
  - repeat constructor; intros [H|H]; discriminate H.
Defined.

(** ** The modes of [cli] *)

(** In the text mode with a client that can be built, [cli] makes exactly
    one call of the service, for the given text under the given or the
    default system prompt, whether the service answers, refuses or fails
    in the middle of the answer: nothing is tried again. *)
Theorem text_mode_one_request
    (w : world) (text path prompt start : option string) (client : AIClient)
    (inputs : list string) (st : state) :
  truthy text = true ->
  truthy path = false ->
  AIClient_init w None None None st = (st, Return client) ->
  requests (cli w text false path prompt start inputs st).1
  = requests st
    ++ [text_request client (default EmptyString text)
          (or_default prompt "你是一个智能AI助手。")].
Proof.
  intros Htext Hpath Hinit.
  rewrite (proj1 (cli_keeps_body_effects _ _ _ _ _ _ _ _)).
  unfold cli_body. rewrite Htext, Hpath. cbn [orb].
  unfold bind at 1. rewrite create_client_run, Hinit.
  unfold bind at 1.
  match goal with
  | |- context [text_completion w client ?p ?sp true true st] =>
      pose proof (text_completion_effects w client p sp true st) as [Hreq _];
      destruct (text_completion w client p sp true true st) as [st' [r|e]]
  end; exact Hreq.
Qed.

Lemma text_mode_one_request_witness :
  requests (cli (refusing_world service_down) (Some "hello") false None
              (Some "be brief") None [] (initial ∅)).1
  = [] ++ [text_request sample_client "hello" "be brief"].
Proof.
  exact (text_mode_one_request (refusing_world service_down) (Some "hello")
           None (Some "be brief") None sample_client [] (initial ∅)
           eq_refl eq_refl eq_refl).
Defined.

Lemma image_path_step w (path : option string) st :
  let step :=
    match path with
    | Some p => if str_truthy p then ret p else get_screenshot w
    | None => get_screenshot w
    end st in
  requests step.1 = requests st /\ stdout step.1 = stdout st.
Proof.
  assert (Hshot : requests (get_screenshot w st).1 = requests st
                  /\ stdout (get_screenshot w st).1 = stdout st).
  { unfold get_screenshot. destruct (screenshot w); [done|].
    by destruct (fs st !! default_save_path) as [[old|]|]. }
  destruct path as [p|]; [|exact Hshot].
  destruct (str_truthy p); [done|exact Hshot].
Qed.

(** Without a complete configuration [cli] never calls the service, in
    any mode and whatever is typed; in the text and interactive modes it
    reports the missing value and returns. *)
Theorem no_request_without_configuration
    (w : world) (text : option string) (image : bool)
    (path prompt start : option string) (inputs : list string)
    (st : state) (e : exn) :
  AIClient_init w None None None st = (st, Raise e) ->
  requests (cli w text image path prompt start inputs st).1 = requests st
  /\ (image || truthy path = false ->
      exists evs,
        cli w text image path prompt start inputs st
        = (add_out st (evs ++ [PrintCreateError e; Echo (caught_message e)]),
           Return tt)).
Proof.
  intros Hinit.
  assert (Hany : forall s, AIClient_init w None None None s = (s, Raise e)).
  { intros s. rewrite AIClient_init_state in Hinit.
    rewrite AIClient_init_state. congruence. }
  assert (Hval : is_ValueError e = true).
  { exact (AIClient_init_raises _ _ _ _ _ _ _ Hinit). }
  assert (Hexc : is_Exception e = true).
  { revert Hval. unfold is_ValueError, is_Exception. by destruct (exn_cls e). }
  assert (Hcaught : caught e = true).
  { unfold caught. by rewrite Hval, orb_true_r. }
  split.
  - rewrite (proj1 (cli_keeps_body_effects _ _ _ _ _ _ _ _)).
    unfold cli_body. destruct (image || truthy path).
    + unfold bind at 1.
      pose proof (image_path_step w path st) as [Hreq _]. cbv zeta in Hreq.
      match type of Hreq with
      | requests (?step).1 = _ => destruct step as [st1 [image_path|e1]]
      end; cbn [fst] in Hreq; [|exact Hreq].
      unfold bind at 1, path_exists.
      destruct (fs st1 !! image_path); cbn [negb]; [|exact Hreq].
      unfold bind at 1. rewrite out_run.
      unfold bind at 1. rewrite create_client_run, Hany, Hexc. exact Hreq.
    + destruct (truthy text).
      * unfold bind at 1. by rewrite create_client_run, Hany, Hexc.
      * unfold bind at 1. rewrite out_run.
        unfold bind at 1. by rewrite create_client_run, Hany, Hexc.
  - intros Hmode. unfold cli, cli_body. rewrite Hmode.
    destruct (truthy text).
    + unfold bind at 1. rewrite create_client_run, Hany, Hexc.
      rewrite (cli_handler_caught e Hcaught), out_run, add_out_app.
      exists []. reflexivity.
    + unfold bind at 1. rewrite out_run.
      unfold bind at 1. rewrite create_client_run, Hany, Hexc.
      rewrite (cli_handler_caught e Hcaught), out_run, !add_out_app.
      eexists [_]. reflexivity.
Qed.

Lemma no_request_without_configuration_witness :
  requests (cli bare_world None true (Some "shot.png") None None ["hi"]
              (initial sample_files)).1 = []
  /\ exists evs,
       cli bare_world None false None None None ["hi"] (initial ∅)
       = (add_out (initial ∅)
            (evs ++ [PrintCreateError (config_error ApiKey);
                     Echo (caught_message (config_error ApiKey))]),
          Return tt).
Proof.
  split.
  - exact (proj1 (no_request_without_configuration bare_world None true
                    (Some "shot.png") None None ["hi"] (initial sample_files)
                    (config_error ApiKey) eq_refl)).
  - exact (proj2 (no_request_without_configuration bare_world None false
                    None None None ["hi"] (initial ∅)
                    (config_error ApiKey) eq_refl) eq_refl).
Defined.

Lemma then_ret_state {A} (m : M A) (st : state) :
  (bind m (fun _ => ret tt) st).1 = (m st).1.
Proof. unfold bind, ret. by destruct (m st) as [st' [a|e]]. Qed.







Lemma image_text_completion_cli_request w client prompt image_path
    system_prompt st :
  exists new,
    requests (image_text_completion w client prompt image_path system_prompt
                true true None st).1 = requests st ++ new
    /\ Forall (cli_request client) new.
Proof.
  destruct (image_url w image_path st) as [st1 [url|e]] eqn:Hurl.
  - pose proof (image_url_returns _ _ _ _ _ Hurl) as (-> & Hdata).
    exists [image_request client prompt url system_prompt true None].
    split; [by apply image_text_completion_requests|].
    by repeat constructor.
  - exists []. split; [|constructor].
    pose proof (image_url_raises _ _ _ _ _ Hurl) as ->.
    unfold image_text_completion. unfold bind at 1. rewrite Hurl.
    cbn [fst]. by rewrite app_nil_r.
Qed.

(** Every call of the service that [cli] makes, in whichever mode, is a
    streamed call that asks for the usage record, for the model of the
    client, with two messages, the system prompt and then the user's; and
    an image is only ever sent as a data URI. *)
Theorem cli_requests_well_formed
    (w : world) (text : option string) (image : bool)
    (path prompt start : option string) (client : AIClient)
    (inputs : list string) (st : state) :
  AIClient_init w None None None st = (st, Return client) ->
  exists new,
    requests (cli w text image path prompt start inputs st).1
    = requests st ++ new
    /\ Forall (cli_request client) new
    /\ Forall (fun r =>
                 req_stream r = true
                 /\ req_stream_options r = Some true
                 /\ req_model r = model client
                 /\ map msg_role (req_messages r) = [system; user]) new.
Proof.
  intros Hinit.
  assert (Hshape : forall new,
             Forall (cli_request client) new ->
             Forall (fun r =>
                       req_stream r = true
                       /\ req_stream_options r = Some true
                       /\ req_model r = model client
                       /\ map msg_role (req_messages r) = [system; user]) new).
  { intros new Hall. eapply Forall_impl; [exact Hall|].
    intros r [p sp|p url sp Hurl]; done. }
  assert (Hany := AIClient_init_any_state _ _ _ _ _ _ Hinit).
  enough (exists new,
             requests (cli w text image path prompt start inputs st).1
             = requests st ++ new
             /\ Forall (cli_request client) new)
    as (new & Hreq & Hall) by (exists new; auto).
  rewrite (proj1 (cli_keeps_body_effects _ _ _ _ _ _ _ _)).
  unfold cli_body. destruct (image || truthy path).
  - unfold bind at 1.
    pose proof (image_path_step w path st) as [Hreq _]. cbv zeta in Hreq.
    match type of Hreq with
    | requests (?step).1 = _ => destruct step as [st1 [image_path|e1]]
    end; cbn [fst] in Hreq;
      [|exists []; rewrite app_nil_r; by split].
    unfold bind at 1, path_exists.
    destruct (fs st1 !! image_path); cbn [negb];
      [|exists []; rewrite app_nil_r; by split].
    unfold bind at 1. rewrite out_run.
    unfold bind at 1. rewrite create_client_run, Hany.
    rewrite then_ret_state.
    match goal with
    | |- context [image_text_completion w client ?ip image_path ?sp
                    true true None ?st2] =>
        destruct (image_text_completion_cli_request w client ip image_path
                    sp st2) as (new & Hnew & Hall)
    end.
    exists new. rewrite Hnew. cbn [requests add_out]. by rewrite Hreq.
  - destruct (truthy text).
    + unfold bind at 1. rewrite create_client_run, Hany.
      rewrite then_ret_state.
      match goal with
      | |- context [text_completion w client ?p ?sp true true st] =>
          rewrite (proj1 (text_completion_effects w client p sp true st));
          exists [text_request client p sp]
      end.
      split; [reflexivity|]. by repeat constructor.
    + unfold bind at 1. rewrite out_run.
      unfold bind at 1. rewrite create_client_run, Hany.
      match goal with
      | |- context [interactive_loop _ _ ?sp _ ?st1] =>
          destruct (interactive_loop_prefix w client sp inputs st1)
            as (k & Hk & _ & _)
      end.
      eexists. rewrite Hk. split; [reflexivity|].
      apply Forall_forall. intros r Hr.
      apply list_elem_of_In, in_map_iff in Hr as (l & <- & _). constructor.
Qed.

Lemma cli_requests_well_formed_witness :
  exists new,
    requests (cli (sample_world (stream_of hello_chunks)) None false
                (Some "shot.png") None None [] (initial sample_files)).1
    = [] ++ new
    /\ Forall (cli_request sample_client) new
    /\ Forall (fun r =>
                 req_stream r = true
                 /\ req_stream_options r = Some true
                 /\ req_model r = model sample_client
                 /\ map msg_role (req_messages r) = [system; user]) new.
Proof.
  exact (cli_requests_well_formed (sample_world (stream_of hello_chunks))
           None false (Some "shot.png") None None sample_client []
           (initial sample_files) eq_refl).
Defined.

(** ** The command-line boundary, continued *)

Lemma cli_lets_others_through_witness :
  cli (refusing_world service_down) (Some "hello") false None None None []
    (initial ∅)
  = ({| stdout := [];
        requests := [text_request sample_client "hello" "你是一个智能AI助手。"];
        fs := ∅ |},
     Raise service_down).
Proof.
  exact (cli_lets_others_through (refusing_world service_down) (Some "hello")
           false None None None [] (initial ∅) _ service_down
           eq_refl eq_refl).
Defined.

Lemma stream_failure_reaches_cli_witness :
  exists st',
    cli_body (sample_world (broken_stream [text_chunk "He"] service_down))
      (Some "hello") false None None None [] (initial ∅)
    = (st', Raise service_down)
    /\ emitted (stdout st') = [] ++ nonempty_deltas [text_chunk "He"].
Proof.
  exact (stream_failure_reaches_cli
           (sample_world (broken_stream [text_chunk "He"] service_down))
           (Some "hello") None None [] sample_client [text_chunk "He"]
           service_down (initial ∅) eq_refl eq_refl eq_refl).
Defined.

(** Whatever happens, [cli] ends in one of two ways: it returns, or it
    is left by an exception that is neither a [FileNotFoundError], a
    [ValueError] nor an [OSError]; and it returns whenever its body
    does, with the same state. *)
Theorem cli_outcomes
    (w : world) (text : option string) (image : bool)
    (path prompt start : option string) (inputs : list string) (st : state) :
  match (cli w text image path prompt start inputs st).2 with
  | Return _ => True
  | Raise e =>
      caught e = false
      /\ cli_body w text image path prompt start inputs st
         = cli w text image path prompt start inputs st
  end.
Proof.
  unfold cli.
  destruct (cli_body w text image path prompt start inputs st)
    as [st' [r|e]]; [done|].
  destruct (caught e) eqn:Hc.
  - by rewrite (cli_handler_caught e Hc), out_run.
  - by rewrite (cli_handler_other e Hc).
Qed.

(** With [-i] and no path, a capture that fails ends the run before
    anything else happens: no file is written, no client is built, no
    request is made and nothing is announced; the exception is reported
    on one line when it is one of the caught classes, and leaves [cli]
    otherwise. *)
Theorem failed_capture_ends_run
    (w : world) (text path prompt start : option string) (e : exn)
    (inputs : list string) (st : state) :
  truthy path = false ->
  screenshot w = inl e ->
  cli w text true path prompt start inputs st
  = if caught e then (add_out st [Echo (caught_message e)], Return tt)
    else (st, Raise e).
Proof.
  intros Hpath Hshot. unfold cli, cli_body. cbn [orb].
  assert (Hstep : match path with
                  | Some p =>
                      if str_truthy p then ret p
                      else get_screenshot w
                  | None => get_screenshot w
                  end st = (st, Raise e)).
  { unfold get_screenshot. rewrite Hshot.
    destruct path as [p|]; [|reflexivity].
    cbn [truthy] in Hpath. by rewrite Hpath. }
  unfold bind at 1. rewrite Hstep.
  destruct (caught e) eqn:Hc.
  - by rewrite (cli_handler_caught e Hc), out_run.
  - by rewrite (cli_handler_other e Hc).
Qed.

Lemma failed_capture_ends_run_witness :
  let w := {| environ := sample_environ; dotenv := sample_dotenv;
              create_stream := fun _ _ => inr (stream_of hello_chunks);
              create_full := fun _ _ => inl service_down;
              screenshot := inl (Exn OSError "screen grab failed");
              open_missing := plainly_missing;
              is_a_directory := is_a_directory_text |} in
  cli w None true None None None [] (initial ∅)
  = (add_out (initial ∅) [Echo "操作错误: screen grab failed"], Return tt).
Proof.
  intros w.
  exact (failed_capture_ends_run w None None None None
           (Exn OSError "screen grab failed") [] (initial ∅)
           eq_refl eq_refl).
Defined.


